(** * prospect: the template resolver (package prospect, resolver file)

    A shallow embedding of the placeholder-template engine: the parser that
    turns a template such as [{year}/{doy}/{month}-{day}] into a tree of
    resolver nodes, and [Resolve], which evaluates such a tree against a
    metadata record.

    Conventions of the embedding:
    - a Go [string] is a sequence of bytes: [string] of the Standard Library
      (one [ascii] per byte);
    - a Go [int] is a 64-bit two's complement integer: [Z], with the
      wrap-around written out by [wrap];
    - a Go function that may return an error or stop with a run-time panic
      returns a [result]: [Ok], [Err] or [Panic]. *)

From Stdlib Require Import ZArith List String Ascii Bool Lia.
From Stdlib Require Import DecimalString.
Import ListNotations.

Local Open Scope string_scope.
Local Open Scope Z_scope.

(** ** Results: values, errors and run-time panics *)

(** The run-time panics the resolver can raise. *)
Inductive panic : Type :=
| IndexOutOfRange (i len : Z)   (* runtime error: index out of range [i] with length len *)
| SliceOutOfRange               (* runtime error: slice bounds out of range *)
| NilDereference.               (* invalid memory address or nil pointer dereference *)

(** The error values the parser returns. *)
Inductive error : Type :=
| ErrMissingBrace               (* fmt.Errorf("missing closing brace") *)
| ErrEmptyPlaceholder           (* fmt.Errorf("empty placeholder") *)
| ErrAtoi (s : string).         (* the NumError of strconv.Atoi(s) *)

Definition Error (e : error) : string :=
  match e with
  | ErrMissingBrace => "missing closing brace"
  | ErrEmptyPlaceholder => "empty placeholder"
  | ErrAtoi s => "strconv.Atoi: parsing " ++ s
  end.

Inductive result (A : Type) : Type :=
| Ok (a : A)
| Err (e : error)
| Panic (p : panic).
Arguments Ok {A} a.
Arguments Err {A} e.
Arguments Panic {A} p.

Definition bind {A B : Type} (m : result A) (k : A -> result B) : result B :=
  match m with
  | Ok a => k a
  | Err e => Err e
  | Panic p => Panic p
  end.

Notation "x <- m ;; k" := (bind m (fun x => k))
  (at level 61, m at next level, right associativity).

(** A loop over a slice that stores one result per element; it stops at
    the first error or panic. *)
Definition each {A B : Type} (f : A -> result B) : list A -> result (list B) :=
  fix go (l : list A) : result (list B) :=
    match l with
    | nil => Ok nil
    | cons x l' => y <- f x ;; ys <- go l' ;; Ok (cons y ys)
    end.

(** ** Machine integers *)

Module Int.
Definition min_int : Z := - 2 ^ 63.
Definition max_int : Z := 2 ^ 63 - 1.
Definition in_range (z : Z) : bool := (min_int <=? z) && (z <=? max_int).
(** Two's complement wrap-around of a 64-bit [int]. *)
Definition wrap (z : Z) : Z := (z + 2 ^ 63) mod 2 ^ 64 - 2 ^ 63.
Definition add (a b : Z) : Z := wrap (a + b).
Definition sub (a b : Z) : Z := wrap (a - b).
End Int.

(** ** Bytes *)

Definition byte_val (c : ascii) : Z := Z.of_N (N_of_ascii c).
Definition byte_of (z : Z) : ascii := ascii_of_N (Z.to_N z).

Definition lcurly : ascii := "{"%char.
Definition rcurly : ascii := "}"%char.
Definition colon : ascii := ":"%char.
Definition Separator : ascii := "/"%char.

Definition isNumber (char : ascii) : bool :=
  (byte_val "0" <=? byte_val char) && (byte_val char <=? byte_val "9").

Definition isSign (char : ascii) : bool := Ascii.eqb char "-".

Definition is_upper (c : ascii) : bool :=
  (byte_val "A" <=? byte_val c) && (byte_val c <=? byte_val "Z").
Definition is_lower (c : ascii) : bool :=
  (byte_val "a" <=? byte_val c) && (byte_val c <=? byte_val "z").

(** The embedding covers ASCII text: Go's [strings.ToLower] and
    [strings.Title] decode UTF-8 and use the Unicode tables on bytes from
    0x80 on, which is outside this model. *)
Definition ascii_byte (c : ascii) : bool := byte_val c <? 128.

Fixpoint is_ascii (s : string) : bool :=
  match s with
  | EmptyString => true
  | String c s' => ascii_byte c && is_ascii s'
  end.

(** ** Package strings *)

Definition len (s : string) : Z := Z.of_nat (String.length s).

(** [s[i]]: panics out of range. *)
Definition at_byte (s : string) (i : Z) : result ascii :=
  if (0 <=? i) && (i <? len s) then
    match String.get (Z.to_nat i) s with
    | Some c => Ok c
    | None => Panic (IndexOutOfRange i (len s))
    end
  else Panic (IndexOutOfRange i (len s)).

Fixpoint skipn_str (n : nat) (s : string) : string :=
  match n, s with
  | O, _ => s
  | S n', EmptyString => EmptyString
  | S n', String _ s' => skipn_str n' s'
  end.

Fixpoint firstn_str (n : nat) (s : string) : string :=
  match n, s with
  | O, _ => EmptyString
  | S n', EmptyString => EmptyString
  | S n', String c s' => String c (firstn_str n' s')
  end.

(** [s[lo:hi]]: panics unless [0 <= lo <= hi <= len(s)]. *)
Definition slice_str (s : string) (lo hi : Z) : result string :=
  if (0 <=? lo) && (lo <=? hi) && (hi <=? len s) then
    Ok (firstn_str (Z.to_nat (hi - lo)) (skipn_str (Z.to_nat lo) s))
  else Panic SliceOutOfRange.

(** [s[lo:]] *)
Definition slice_from (s : string) (lo : Z) : result string :=
  slice_str s lo (len s).

(** [s[:hi]] *)
Definition slice_to (s : string) (hi : Z) : result string :=
  slice_str s 0 hi.

(** [strings.IndexByte]: index of the first [c] in [s], or -1. *)
Fixpoint IndexByte (s : string) (c : ascii) : Z :=
  match s with
  | EmptyString => -1
  | String x s' =>
      if Ascii.eqb x c then 0
      else let r := IndexByte s' c in if r <? 0 then -1 else r + 1
  end.

Fixpoint HasPrefix (s prefix : string) {struct prefix} : bool :=
  match prefix, s with
  | EmptyString, _ => true
  | String _ _, EmptyString => false
  | String p prefix', String x s' => Ascii.eqb x p && HasPrefix s' prefix'
  end.

(** [strings.Index]: index of the first occurrence of [substr], or -1. *)
Fixpoint Index (s substr : string) : Z :=
  if HasPrefix s substr then 0
  else match s with
       | EmptyString => -1
       | String _ s' =>
           let r := Index s' substr in if r <? 0 then -1 else r + 1
       end.

(** [strings.TrimPrefix] *)
Definition TrimPrefix (s prefix : string) : string :=
  if HasPrefix s prefix then skipn_str (String.length prefix) s else s.

(** [strings.Split(s, sep)] for a separator of one byte: the pieces
    between the separators; always at least one piece. *)
Fixpoint Split (s : string) (sep : ascii) : list string :=
  match s with
  | EmptyString => [EmptyString]
  | String c s' =>
      if Ascii.eqb c sep then EmptyString :: Split s' sep
      else match Split s' sep with
           | x :: xs => String c x :: xs
           | [] => [String c EmptyString]
           end
  end.

Fixpoint TrimLeft (s : string) (c : ascii) : string :=
  match s with
  | EmptyString => EmptyString
  | String x s' => if Ascii.eqb x c then TrimLeft s' c else s
  end.

Fixpoint TrimRight (s : string) (c : ascii) : string :=
  match s with
  | EmptyString => EmptyString
  | String x s' =>
      match TrimRight s' c with
      | EmptyString => if Ascii.eqb x c then EmptyString else String x EmptyString
      | r => String x r
      end
  end.

(** [strings.Trim(s, cutset)] for a cutset of one byte. *)
Definition Trim (s : string) (c : ascii) : string := TrimRight (TrimLeft s c) c.

(** [strings.Join] *)
Definition JoinStrings (elems : list string) (sep : string) : string :=
  String.concat sep elems.

Definition lower_byte (c : ascii) : ascii :=
  if is_upper c then byte_of (byte_val c + 32) else c.
Definition upper_byte (c : ascii) : ascii :=
  if is_lower c then byte_of (byte_val c - 32) else c.

Fixpoint map_str (f : ascii -> ascii) (s : string) : string :=
  match s with
  | EmptyString => EmptyString
  | String c s' => String (f c) (map_str f s')
  end.

(** [strings.ToLower], on ASCII text. *)
Definition ToLower (s : string) : string := map_str lower_byte s.

(** [strings.isSeparator], on ASCII: everything but letters, digits and
    the underscore separates words. *)
Definition isSeparator (r : ascii) : bool :=
  if isNumber r then false
  else if is_lower r then false
  else if is_upper r then false
  else if Ascii.eqb r "_" then false
  else true.

(** The closure of [strings.Title], with its captured variable [prev]
    passed along: a letter is put in title case when the rune before it is a
    separator. *)
Fixpoint Title_map (prev : ascii) (s : string) : string :=
  match s with
  | EmptyString => EmptyString
  | String r s' =>
      String (if isSeparator prev then upper_byte r else r) (Title_map r s')
  end.

(** [strings.Title], on ASCII text: [prev] starts as a space. *)
Definition Title (s : string) : string := Title_map " " s.

(** The loop of [strings.Replace(s, old, new, -1)] for a non-empty [old]:
    [skip] counts the bytes of a match of [old] still to be passed over. *)
Fixpoint Replace_loop (old new : string) (skip : nat) (s : string) : string :=
  match s with
  | EmptyString => EmptyString
  | String c s' =>
      match skip with
      | S k => Replace_loop old new k s'
      | O =>
          if HasPrefix s old
          then new ++ Replace_loop old new (String.length old - 1) s'
          else String c (Replace_loop old new O s')
      end
  end.

(** [strings.ReplaceAll(s, old, new)], for a non-empty [old] (the resolver
    only calls it with [old = " "]). *)
Definition ReplaceAll (s old new : string) : string :=
  Replace_loop old new O s.

(** ** Package strconv *)

Fixpoint digits_val (acc : Z) (s : string) : option Z :=
  match s with
  | EmptyString => Some acc
  | String c s' =>
      if isNumber c then digits_val (acc * 10 + (byte_val c - byte_val "0")) s'
      else None
  end.

(** [strconv.Atoi] on a 64-bit platform: an optional sign, then one or more
    decimal digits, the value within the range of [int]; [None] stands for
    the returned [NumError] (syntax or range). *)
Definition Atoi (s : string) : option Z :=
  match s with
  | EmptyString => None
  | String c s' =>
      let body := if Ascii.eqb c "-" || Ascii.eqb c "+" then s' else s in
      match body with
      | EmptyString => None
      | _ =>
          match digits_val 0 body with
          | Some n =>
              let v := if Ascii.eqb c "-" then - n else n in
              if Int.in_range v then Some v else None
          | None => None
          end
      end
  end.

(** [strconv.Itoa] *)
Definition Itoa (z : Z) : string := NilZero.string_of_int (Z.to_int z).

Fixpoint zeros (n : nat) : string :=
  match n with
  | O => EmptyString
  | S n' => String "0" (zeros n')
  end.

(** [fmt.Sprintf("%0<width>d", z)]: the sign first, then zeros up to the
    width, then the digits. *)
Definition Sprintf_0d (width : nat) (z : Z) : string :=
  let digits := Itoa (Z.abs z) in
  let sign := if z <? 0 then "-" else "" in
  let used := (String.length sign + String.length digits)%nat in
  sign ++ zeros (width - used) ++ digits.

(** ** Package path/filepath (Unix) *)

Module filepath.

Definition dot : string := ".".
Definition dotdot : string := "..".

Definition rooted (path : string) : bool :=
  match path with
  | String c _ => Ascii.eqb c Separator
  | EmptyString => false
  end.

(** One element of the path read by [Clean]; [out] holds the elements
    written so far, the last one first.  An empty element and [.] are
    passed over; [..] removes the last element written when there is one
    to backtrack over, is dropped under the root, and is written out
    otherwise; any other element is written. *)
Definition clean_step (is_rooted : bool) (out : list string) (elem : string)
  : list string :=
  if String.eqb elem "" then out
  else if String.eqb elem dot then out
  else if String.eqb elem dotdot then
    match out with
    | top :: rest =>
        if String.eqb top dotdot
        then (if is_rooted then out else dotdot :: out)
        else rest
    | [] => if is_rooted then [] else [dotdot]
    end
  else elem :: out.

Definition clean_elems (is_rooted : bool) (elems : list string) : list string :=
  rev (fold_left (clean_step is_rooted) elems []).

(** [filepath.Clean]: the shortest path equivalent to [path] by lexical
    processing.  Its loop over the bytes of [path] is taken one element
    (the bytes between two separators) at a time. *)
Definition Clean (path : string) : string :=
  let is_rooted := rooted path in
  let out := clean_elems is_rooted (Split path Separator) in
  if is_rooted then String Separator (JoinStrings out "/")
  else match out with
       | [] => dot
       | _ => JoinStrings out "/"
       end.

(** The part of [path] up to and including its last separator. *)
Fixpoint upto_last_sep (path : string) : string :=
  match path with
  | EmptyString => EmptyString
  | String c s' =>
      let r := upto_last_sep s' in
      if Ascii.eqb c Separator then String c r
      else match r with
           | EmptyString => EmptyString
           | _ => String c r
           end
  end.

(** [filepath.Dir]: all but the last element of [path], cleaned. *)
Definition Dir (path : string) : string := Clean (upto_last_sep path).

(** [filepath.Join]: from the first non-empty element on, the elements are
    joined by the separator and the result is cleaned; with no such element
    the result is empty. *)
Fixpoint Join (elem : list string) : string :=
  match elem with
  | [] => ""
  | e :: rest =>
      if String.eqb e "" then Join rest
      else Clean (JoinStrings elem "/")
  end.

End filepath.

(** ** Package time *)

Module time.

(** A [time.Time]: an instant, in seconds since the Unix epoch, and the
    offset east of UTC, in seconds, of the zone it is presented in. *)
Record Time : Type := mkTime { unixSec : Z; offset : Z }.

Definition secondsPerDay : Z := 86400.
Definition daysPer400Years : Z := 365 * 400 + 97.
Definition daysPer100Years : Z := 365 * 100 + 24.
Definition daysPer4Years : Z := 365 * 4 + 1.
Definition absoluteZeroYear : Z := -292277022399.
Definition unixToInternal : Z :=
  (1969 * 365 + 1969 / 4 - 1969 / 100 + 1969 / 400) * secondsPerDay.
Definition internalToAbsolute : Z := 292277022400 * 31556952.

(** Seconds since the absolute zero year, in the zone of [t]. *)
Definition abs (t : Time) : Z :=
  unixSec t + offset t + (unixToInternal + internalToAbsolute).

Definition isLeap (year : Z) : bool :=
  (Z.rem year 4 =? 0) && (negb (Z.rem year 100 =? 0) || (Z.rem year 400 =? 0)).

(** [daysBefore[m]]: the days of a non-leap year before month [m+1]. *)
Definition daysBefore (m : Z) : Z :=
  nth (Z.to_nat m) [0; 31; 59; 90; 120; 151; 181; 212; 243; 273; 304; 334; 365] 0.

(** [absDate]: year, month, day of the month and day of the year (from 0). *)
Definition absDate (abs : Z) : Z * Z * Z * Z :=
  let d := abs / secondsPerDay in
  let n := d / daysPer400Years in
  let y := 400 * n in
  let d := d - daysPer400Years * n in
  let n := d / daysPer100Years in
  let n := n - n / 4 in
  let y := y + 100 * n in
  let d := d - daysPer100Years * n in
  let n := d / daysPer4Years in
  let y := y + 4 * n in
  let d := d - daysPer4Years * n in
  let n := d / 365 in
  let n := n - n / 4 in
  let y := y + n in
  let d := d - 365 * n in
  let year := y + absoluteZeroYear in
  let yday := d in
  if isLeap year && (yday =? 31 + 29 - 1) then (year, 2, 29, yday)
  else
    let day := if isLeap year && (31 + 29 - 1 <? yday) then yday - 1 else yday in
    let month := day / 31 in
    let fin := daysBefore (month + 1) in
    let '(month, begin) :=
      if fin <=? day then (month + 1, fin) else (month, daysBefore month) in
    (year, month + 1, day - begin + 1, yday).

Definition Year (t : Time) : Z := let '(y, _, _, _) := absDate (abs t) in y.
Definition Month (t : Time) : Z := let '(_, m, _, _) := absDate (abs t) in m.
Definition Day (t : Time) : Z := let '(_, _, d, _) := absDate (abs t) in d.
Definition YearDay (t : Time) : Z := let '(_, _, _, yd) := absDate (abs t) in yd + 1.
Definition Hour (t : Time) : Z := (abs t mod secondsPerDay) / 3600.
Definition Minute (t : Time) : Z := (abs t mod 3600) / 60.
Definition Second (t : Time) : Z := abs t mod 60.
Definition Unix (t : Time) : Z := unixSec t.

(** [daysSinceEpoch]: the days from the absolute epoch to the start of
    [year]. *)
Definition daysSinceEpoch (year : Z) : Z :=
  let y := year - absoluteZeroYear in
  let n := y / 400 in
  let y := y - 400 * n in
  let d := daysPer400Years * n in
  let n := y / 100 in
  let y := y - 100 * n in
  let d := d + daysPer100Years * n in
  let n := y / 4 in
  let y := y - 4 * n in
  let d := d + daysPer4Years * n in
  d + 365 * y.

(** [time.Date(year, month, day, hour, min, sec, 0, time.UTC)], for fields
    within their usual ranges (no normalisation of overflowing fields). *)
Definition Date (year month day hour min sec : Z) : Time :=
  let d := daysSinceEpoch year + daysBefore (month - 1) in
  let d := if isLeap year && (3 <=? month) then d + 1 else d in
  let d := d + (day - 1) in
  let abs := d * secondsPerDay + (hour * 3600 + min * 60 + sec) in
  mkTime (abs - (unixToInternal + internalToAbsolute)) 0.

(** [IsZero], [UTC], [Before] and [After], on times of whole seconds as
    this record holds them: the zero time is January 1 of year 1, 00:00 UTC,
    and times compare as instants. *)
Definition IsZero (t : Time) : bool := unixSec t + unixToInternal =? 0.
Definition UTC (t : Time) : Time := mkTime (unixSec t) 0.
Definition Before (t u : Time) : bool := unixSec t <? unixSec u.
Definition After (t u : Time) : bool := unixSec u <? unixSec t.

End time.

(** ** The metadata record *)

(** Modelled from the spec: the record [Data] is declared in another file of
    package prospect; these are the fields the resolver reads, with the types
    it uses them at. *)
Record Data : Type := mkData {
  File : string;
  Source : string;
  Model : string;
  Mime : string;
  Type_ : string;
  Level : Z;
  AcqTime : time.Time
}.

(** ** Resolver nodes *)

Unset Elimination Schemes.
Inductive Resolver : Type :=
| empty
| path (rs : list Resolver)
| literal (s : string)
| index (index : Z)
| slice (begin end_ : Z)
| fragment (name : string)
| compound (rs : list Resolver).
Set Elimination Schemes.

Definition levelLevel := "level".
Definition levelSource := "source".
Definition levelModel := "model".
Definition levelMime := "mime".
Definition levelFormat := "format".
Definition levelType := "type".
Definition levelRun := "run".
Definition levelYear := "year".
Definition levelDoy := "doy".
Definition levelMonth := "month".
Definition levelDay := "day".
Definition levelHour := "hour".
Definition levelMinLong := "minute".
Definition levelMinShort := "min".
Definition levelSecLong := "second".
Definition levelSecShort := "sec".
Definition levelStamp := "timestamp".

(** [xs[i]] on a slice of strings: panics out of range. *)
Definition at_index (xs : list string) (i : Z) : result string :=
  if (0 <=? i) && (i <? Z.of_nat (List.length xs)) then
    match nth_error xs (Z.to_nat i) with
    | Some x => Ok x
    | None => Panic (IndexOutOfRange i (Z.of_nat (List.length xs)))
    end
  else Panic (IndexOutOfRange i (Z.of_nat (List.length xs))).

(** [xs[lo:hi]] on a slice of strings: panics unless [0 <= lo <= hi <= len]
    (the capacity of the slice [strings.Split] returns is its length). *)
Definition sub_slice (xs : list string) (lo hi : Z) : result (list string) :=
  if (0 <=? lo) && (lo <=? hi) && (hi <=? Z.of_nat (List.length xs)) then
    Ok (firstn (Z.to_nat (hi - lo)) (skipn (Z.to_nat lo) xs))
  else Panic SliceOutOfRange.

Definition normalize (index size : Z) : Z :=
  let index := if index <? 0 then Int.add size index else index in
  if index <? 0 then 0
  else if size <=? index then size
  else index.

Definition splitMime (mime : string) : string :=
  let ix := Index mime "/" in
  let mime :=
    if (0 <=? ix) && (ix + 1 <? len mime)
    then skipn_str (Z.to_nat (ix + 1)) mime else mime in
  let ix := Index mime ";" in
  if 0 <=? ix then firstn_str (Z.to_nat ix) mime else mime.

(** The directory segments index and slice nodes address. *)
Definition segments (file : string) : list string :=
  Split (TrimPrefix (filepath.Dir file) "/") Separator.

(** The closure [replace] of [fragment.Resolve]. *)
Definition replace (str : string) : string := ReplaceAll (Title str) " " "".

Definition fragment_Resolve (name : string) (dat : Data) : result string :=
  let key := ToLower name in
  if String.eqb key levelRun then Ok (Source dat)
  else if String.eqb key levelLevel then Ok (Itoa (Level dat))
  else if String.eqb key levelSource then Ok (replace (Source dat))
  else if String.eqb key levelModel then Ok (replace (Model dat))
  else if String.eqb key levelMime || String.eqb key levelFormat
       then Ok (replace (splitMime (Mime dat)))
  else if String.eqb key levelType then Ok (replace (Type_ dat))
  else if String.eqb key levelYear then Ok (Itoa (time.Year (AcqTime dat)))
  else if String.eqb key levelDoy then Ok (Sprintf_0d 3 (time.YearDay (AcqTime dat)))
  else if String.eqb key levelMonth then Ok (Sprintf_0d 2 (time.Month (AcqTime dat)))
  else if String.eqb key levelDay then Ok (Sprintf_0d 2 (time.Day (AcqTime dat)))
  else if String.eqb key levelHour then Ok (Sprintf_0d 2 (time.Hour (AcqTime dat)))
  else if String.eqb key levelMinShort || String.eqb key levelMinLong
       then Ok (Sprintf_0d 2 (time.Minute (AcqTime dat)))
  else if String.eqb key levelSecShort || String.eqb key levelSecLong
       then Ok (Sprintf_0d 2 (time.Second (AcqTime dat)))
  else if String.eqb key levelStamp then Ok (Itoa (time.Unix (AcqTime dat)))
  else
    (* default *)
    match Atoi name with
    | Some x =>
        let xs := segments name in
        let x := Int.sub x 1 in
        if x <? Z.of_nat (List.length xs) then at_index xs x else Ok ""
    | None => Ok ""
    end.

Definition index_Resolve (i : Z) (dat : Data) : result string :=
  let xs := segments (File dat) in
  if i <? Z.of_nat (List.length xs) then at_index xs i else Ok "".

Definition slice_Resolve (b e : Z) (dat : Data) : result string :=
  let xs := segments (File dat) in
  let begin := normalize b (Z.of_nat (List.length xs)) in
  let end_ := normalize e (Z.of_nat (List.length xs)) in
  if end_ =? begin then at_index xs begin
  else if begin <? end_ then
    part <- sub_slice xs begin end_ ;; Ok (filepath.Join part)
  else Ok "".

(** [Resolve], for the seven kinds of node.  The children of a path or
    compound node are resolved in order. *)
Fixpoint Resolve (r : Resolver) (dat : Data) : result string :=
  match r with
  | empty => Ok ""
  | path rs =>
      str <- each (fun r => Resolve r dat) rs ;;
      Ok (filepath.Join str)
  | literal s => Ok s
  | index i => index_Resolve i dat
  | slice b e => slice_Resolve b e dat
  | fragment name => fragment_Resolve name dat
  | compound rs =>
      (fix write (l : list Resolver) (buf : string) : result string :=
         match l with
         | [] => Ok buf
         | r :: l' => s <- Resolve r dat ;; write l' (buf ++ s)
         end) rs ""
  end.

(** The method [String] of the seven kinds of node: the rendering used in
    diagnostics. *)
Fixpoint Resolver_String (r : Resolver) : string :=
  match r with
  | empty => ""
  | path rs => "path(" ++ filepath.Join (map Resolver_String rs) ++ ")"
  | literal s => "literal(" ++ s ++ ")"
  | index i => "index(" ++ Itoa i ++ ")"
  | slice b e => "range(" ++ Itoa b ++ ":" ++ Itoa e ++ ")"
  | fragment name => "fragment(" ++ name ++ ")"
  | compound rs =>
      "compound(" ++
      (fix write (l : list Resolver) (buf : string) : string :=
         match l with
         | [] => buf
         | r :: l' => write l' (buf ++ Resolver_String r)
         end) rs "" ++ ")"
  end.

(** ** The parser *)

Definition parseResolver (str : string) : result Resolver :=
  c <- at_byte str 0 ;;
  if negb (isNumber c || isSign c) then Ok (fragment str)
  else
    let x := IndexByte str colon in
    if x <? 0 then
      match Atoi str with
      | Some i => Ok (index i)
      | None => Err (ErrAtoi str)
      end
    else
      b <- slice_to str x ;;
      match Atoi b with
      | None => Err (ErrAtoi b)
      | Some begin =>
          e <- slice_from str (x + 1) ;;
          match Atoi e with
          | None => Err (ErrAtoi e)
          | Some end_ => Ok (slice begin end_)
          end
      end.

(** The loop of [parse]: [offset] and [rs] are its two variables; the
    result is their value when the loop is left.  Every turn moves [offset]
    forward, so [fuel] above [len(str) - offset] is never used up
    (lemma [parse_loop_fuel]). *)
Fixpoint parse_loop (fuel : nat) (str : string) (offset : Z) (rs : list Resolver)
  : result (Z * list Resolver) :=
  match fuel with
  | O => Ok (offset, rs)
  | S fuel' =>
      if offset <? len str then
        tail <- slice_from str offset ;;
        let start := IndexByte tail lcurly in
        if start <? 0 then Ok (offset, rs)
        else
          tail' <- slice_from str (offset + start) ;;
          let end_ := IndexByte tail' rcurly in
          if end_ <? 0 then Err ErrMissingBrace
          else if end_ - start =? 1 then Err ErrEmptyPlaceholder
          else
            q <- slice_str str offset (offset + start) ;;
            let rs := if 0 <? len q then (rs ++ [literal q])%list else rs in
            let offset := offset + (start + 1) in
            name <- slice_str str offset (offset + end_ - 1) ;;
            r <- parseResolver name ;;
            let rs := (rs ++ [r])%list in
            let offset := offset + end_ in
            parse_loop fuel' str offset rs
      else Ok (offset, rs)
  end.

Definition parse (str : string) : result Resolver :=
  st <- parse_loop (S (String.length str)) str 0 [] ;;
  let '(offset, rs) := st in
  tail <- slice_from str offset ;;
  let rs := if 0 <? len tail then (rs ++ [literal tail])%list else rs in
  match rs with
  | [r] => Ok r
  | _ => Ok (compound rs)
  end.

Definition ParseResolver (str : string) : result Resolver :=
  if String.eqb str "" then Ok empty
  else
    let parts := Split (Trim str Separator) Separator in
    rs <- each parse parts ;;
    Ok (path rs).

(** ** Pattern *)

(** A [Pattern] embeds a [Resolver] interface value; [None] is the nil
    interface of a [Pattern] that was never set. *)
Record Pattern : Type := mkPattern { Pattern_Resolver : option Resolver }.

(** [Pattern.Set], a method on a pointer: the pattern after the call, and the error returned
    ([None] for nil). *)
Definition Set_ (p : Pattern) (str : string) : result (Pattern * option error) :=
  match ParseResolver str with
  | Ok r => Ok (mkPattern (Some r), None)
  | Err err => Ok (p, Some err)
  | Panic x => Panic x
  end.

(** [p.Resolve(dat)]: the method promoted from the embedded interface. *)
Definition Pattern_Resolve (p : Pattern) (dat : Data) : result string :=
  match Pattern_Resolver p with
  | Some r => Resolve r dat
  | None => Panic NilDereference
  end.

(** Configuring a template and resolving a record with the tree obtained. *)
Definition resolve_template (template : string) (dat : Data) : result string :=
  r <- ParseResolver template ;; Resolve r dat.

(** ** Package sort *)

Module sort.

Fixpoint insert (x : string) (l : list string) : list string :=
  match l with
  | [] => [x]
  | y :: l' => if String.leb x y then x :: l else y :: insert x l'
  end.

(** [sort.Strings]: the strings in increasing order of their bytes.  The
    order is total, so the result does not depend on how it is reached; here
    by insertion. *)
Definition Strings (a : list string) : list string := fold_right insert [] a.

(** The loop of [sort.Search]: [i, j := 0, n], then halving while
    [i < j]. *)
Fixpoint Search_loop (fuel : nat) (f : Z -> bool) (i j : Z) : Z :=
  match fuel with
  | O => i
  | S fuel' =>
      if i <? j then
        let h := (i + j) / 2 in
        if negb (f h) then Search_loop fuel' f (h + 1) j
        else Search_loop fuel' f i h
      else i
  end.

(** [sort.Search(n, f)]; the interval shrinks at every turn, so [n] turns
    are enough. *)
Definition Search (n : Z) (f : Z -> bool) : Z := Search_loop (Z.to_nat n) f 0 n.

(** [sort.SearchStrings(a, x)]: the search for [a[i] >= x]. *)
Definition SearchStrings (a : list string) (x : string) : Z :=
  Search (Z.of_nat (List.length a))
         (fun i => String.leb x (nth (Z.to_nat i) a "")).

End sort.

(** ** The mail plugin: message filters *)

Module mbox.

(** A message of the library [mbox], taken as what its methods return to
    the filters. *)
Record Message : Type := mkMessage {
  From : string;
  To : list string;
  Subject : string;
  IsReply : bool;
  Date : time.Time;
  HasAttachments : bool
}.

Definition filterFunc : Type := Message -> bool.

Record predicate : Type := mkPredicate {
  p_From : string;
  p_To : list string;
  p_Subject : string;
  p_NoReply : bool;
  p_Attachment : bool;
  p_Starts : time.Time;
  p_Ends : time.Time
}.

Definition keep (_ : Message) : bool := true.

Fixpoint withFilter (funcs : list filterFunc) (m : Message) : bool :=
  match funcs with
  | [] => true
  | fn :: funcs' => if negb (fn m) then false else withFilter funcs' m
  end.

Definition withFrom (from : string) : filterFunc :=
  fun m => String.eqb from "" || String.eqb (From m) from.

(** The loop of the closure of [withTo] over the recipients. *)
Fixpoint any_recipient (to : list string) (recipients : list string) : bool :=
  match recipients with
  | [] => false
  | t :: rest =>
      let i := sort.SearchStrings to t in
      if (i <? Z.of_nat (List.length to))
         && String.eqb (nth (Z.to_nat i) to "") t
      then true
      else any_recipient to rest
  end.

Definition withTo (to : list string) : filterFunc :=
  if Nat.eqb (List.length to) 0 then keep
  else
    let to := sort.Strings to in
    fun m => any_recipient to (To m).

(** [strings.Contains] *)
Definition Contains (s substr : string) : bool := 0 <=? Index s substr.

Definition withSubject (subj : string) : filterFunc :=
  fun m => String.eqb subj "" || Contains (Subject m) subj.

Definition withReply (noreply : bool) : filterFunc :=
  fun m => if noreply then negb (IsReply m) else true.

Definition withInterval (starts ends : time.Time) : filterFunc :=
  if time.IsZero starts && time.IsZero ends then keep
  else
    let starts := time.UTC starts in
    let ends := time.UTC ends in
    fun m =>
      let when := time.UTC (Date m) in
      if time.Before when starts then false
      else negb (time.After when ends).

Definition withAttachment (attach : bool) : filterFunc :=
  fun m => negb attach || HasAttachments m.

(** [predicate.filter] *)
Definition filter (p : predicate) : filterFunc :=
  withFilter [withFrom (p_From p); withTo (p_To p); withSubject (p_Subject p);
              withReply (p_NoReply p);
              withInterval (p_Starts p) (p_Ends p);
              withAttachment (p_Attachment p)].

(** An item of the stack of the module, and the part of
    [prospect.FileInfo] that [processItem] writes. *)
Record item : Type := mkItem {
  i_File : string;
  i_Mime : string;
  i_Digest : string;
  i_When : time.Time
}.

Record FileInfo : Type := mkFileInfo {
  fi_AcqTime : time.Time;
  fi_ModTime : time.Time;
  fi_Links : list string
}.

(** The two errors of package prospect the plugin returns. *)
Inductive plugin_error : Type := ErrSkip | ErrDone.

(** The loop of [processItem] over the items of the stack: [links] are the
    files of the links appended so far. *)
Fixpoint link_items (i : item) (items : list item) (links : list string)
  : list string :=
  match items with
  | [] => links
  | j :: items' =>
      if String.eqb (i_File i) (i_File i) then link_items i items' links
      else link_items i items' (links ++ [i_File j])%list
  end.

(** [processItem], with the items of the stack of the module. *)
Definition processItem (items : list item) (i : item)
  : FileInfo * plugin_error :=
  (mkFileInfo (i_When i) (i_When i) (link_items i items []), ErrSkip).

End mbox.

(** ** Definitions used in the statements *)

(** The record of the examples: File is [/a/b/c/d.dat], Source is
    [main unit] and AcqTime is 2024-03-05T07:08:09Z. *)
Definition sample : Data :=
  mkData "/a/b/c/d.dat" "main unit" "HRD" "image/png; q=1" "science" 1
         (time.Date 2024 3 5 7 8 9).

(** The keywords of the table of [fragment.Resolve]. *)
Definition keywords : list string :=
  [levelRun; levelLevel; levelSource; levelModel; levelMime; levelFormat;
   levelType; levelYear; levelDoy; levelMonth; levelDay; levelHour;
   levelMinShort; levelMinLong; levelSecShort; levelSecLong; levelStamp].

Definition is_keyword (key : string) : bool := existsb (String.eqb key) keywords.

Definition nonempty (s : string) : bool := negb (String.eqb s "").

(** [s] holds no separator. *)
Fixpoint no_sep (s : string) : bool :=
  match s with
  | EmptyString => true
  | String c s' => negb (Ascii.eqb c Separator) && no_sep s'
  end.

(** A path element as [Clean] writes it: not empty, without separator. *)
Definition elem_ok (s : string) : bool := nonempty s && no_sep s.

(** [s] holds two separators in a row. *)
Fixpoint has_double_sep (s : string) : bool :=
  match s with
  | EmptyString => false
  | String c s' =>
      (Ascii.eqb c Separator && filepath.rooted s') || has_double_sep s'
  end.

(** The last byte of [s] is a separator. *)
Fixpoint ends_with_sep (s : string) : bool :=
  match s with
  | EmptyString => false
  | String c EmptyString => Ascii.eqb c Separator
  | String _ s' => ends_with_sep s'
  end.

Fixpoint delete_bytes (drop : ascii -> bool) (s : string) : string :=
  match s with
  | EmptyString => EmptyString
  | String c s' =>
      if drop c then delete_bytes drop s' else String c (delete_bytes drop s')
  end.

(** Upper-cases every byte that opens a token: the first byte, and every
    byte after a delimiter. *)
Fixpoint capitalize_tokens (delimiter : ascii -> bool) (opening : bool)
  (s : string) : string :=
  match s with
  | EmptyString => EmptyString
  | String c s' =>
      String (if opening then upper_byte c else c)
             (capitalize_tokens delimiter (delimiter c) s')
  end.

(** Space, tab, line feed, vertical tab, form feed, carriage return. *)
Definition is_whitespace (c : ascii) : bool :=
  Ascii.eqb c " " || ((9 <=? byte_val c) && (byte_val c <=? 13)).

(** The format as the specification words it: tokens are delimited by
    whitespace, and all whitespace is deleted. *)
Definition format_by_whitespace (s : string) : string :=
  delete_bytes is_whitespace (capitalize_tokens is_whitespace true s).

(** A byte of a word: a letter, a digit or the underscore. *)
Definition word_byte (c : ascii) : bool :=
  is_lower c || is_upper c || isNumber c || Ascii.eqb c "_".

Definition is_space (c : ascii) : bool := Ascii.eqb c " ".

(** The format of the code: tokens are the runs of word bytes, every other
    byte is a delimiter, and only the space character is deleted. *)
Definition format_by_words (s : string) : string :=
  delete_bytes is_space (capitalize_tokens (fun c => negb (word_byte c)) true s).

(** An element [Clean] keeps as it is: not empty, not [.] nor [..]. *)
Definition normal_elem (e : string) : bool :=
  elem_ok e && negb (String.eqb e filepath.dot)
            && negb (String.eqb e filepath.dotdot).

Definition is_dotdot (e : string) : bool := String.eqb e filepath.dotdot.

(** The elements of a cleaned path: some [..], then normal elements. *)
Fixpoint canon (l : list string) : bool :=
  match l with
  | [] => true
  | e :: l' => if is_dotdot e then canon l' else forallb normal_elem l
  end.

(** Under the root no [..] is left. *)
Definition canon_for (is_rooted : bool) (l : list string) : bool :=
  if is_rooted then forallb normal_elem l else canon l.

Definition no_error {A : Type} (m : result A) : Prop :=
  match m with
  | Err _ => False
  | _ => True
  end.

(** Induction on a tree of nodes *)

Section ResolverInduction.
Variable P : Resolver -> Prop.
Hypothesis P_empty : P empty.
Hypothesis P_path : forall rs, Forall P rs -> P (path rs).
Hypothesis P_literal : forall s, P (literal s).
Hypothesis P_index : forall i, P (index i).
Hypothesis P_slice : forall b e, P (slice b e).
Hypothesis P_fragment : forall name, P (fragment name).
Hypothesis P_compound : forall rs, Forall P rs -> P (compound rs).

(** Induction on a tree of nodes, with the property on all children. *)
Fixpoint Resolver_tree_ind (r : Resolver) : P r :=
  let children :=
    fix children (rs : list Resolver) : Forall P rs :=
      match rs with
      | [] => Forall_nil P
      | x :: rs' => Forall_cons x (Resolver_tree_ind x) (children rs')
      end in
  match r with
  | empty => P_empty
  | path rs => P_path rs (children rs)
  | literal s => P_literal s
  | index i => P_index i
  | slice b e => P_slice b e
  | fragment name => P_fragment name
  | compound rs => P_compound rs (children rs)
  end.
End ResolverInduction.

(** [s] holds no byte [c]. *)
Fixpoint lacks (c : ascii) (s : string) : bool :=
  match s with
  | EmptyString => true
  | String x s' => negb (Ascii.eqb x c) && lacks c s'
  end.

(** A component read as the parser reads it: a list of placeholders, each
    with the literal text before it and the node of its name, then the
    text after the last placeholder. *)
Definition token : Type := (string * string * Resolver)%type.

Fixpoint tokens_text (toks : list token) : string :=
  match toks with
  | [] => ""
  | (lit, name, _) :: toks' =>
      lit ++ String lcurly (name ++ String rcurly (tokens_text toks'))
  end.

(** The node of a stretch of literal text: none when it is empty. *)
Definition literal_node (s : string) : list Resolver :=
  if 0 <? len s then [literal s] else [].

Definition token_nodes (toks : list token) : list Resolver :=
  flat_map (fun t : token => let '(lit, _, r) := t in (literal_node lit ++ [r])%list)
           toks.

(** What the loop of [parse] asks of a placeholder to get through it: no
    opening brace in the text before it, no closing brace in its name, a name
    that is not as long as the text before it, and a name that
    [parseResolver] accepts. *)
Definition token_ok (t : token) : Prop :=
  let '(lit, name, r) := t in
  lacks lcurly lit = true /\ lacks rcurly name = true /\
  len name <> len lit /\ parseResolver name = Ok r.

(** The last statement of [parse]: one node stands for itself. *)
Definition one_or_compound (rs : list Resolver) : Resolver :=
  match rs with
  | [r] => r
  | _ => compound rs
  end.

(** The first byte of [s] is a digit or the minus sign: the test of
    [parseResolver] for an index or a slice. *)
Definition numeric_start (s : string) : bool :=
  match s with
  | EmptyString => false
  | String c _ => isNumber c || isSign c
  end.

(** The leaves the parser builds: a literal that is not empty and holds no
    opening brace; a fragment whose name is not empty, does not start with a
    digit or a minus sign and holds no closing brace; an index or a slice of
    numbers within the range of [int].  Neither text holds a separator. *)
Definition leaf_wf (r : Resolver) : bool :=
  match r with
  | literal s => nonempty s && lacks lcurly s && lacks Separator s
  | fragment name =>
      nonempty name && negb (numeric_start name) && lacks rcurly name
      && lacks Separator name
  | index i => Int.in_range i
  | slice b e => Int.in_range b && Int.in_range e
  | _ => false
  end.

(** The node of a component: a leaf, or a compound node of no leaf or of
    two leaves or more. *)
Definition component_wf (r : Resolver) : bool :=
  match r with
  | compound rs => forallb leaf_wf rs && negb (Nat.eqb (List.length rs) 1)
  | _ => leaf_wf r
  end.

(** The tree of a template: the empty node, or a path node of one
    component or more. *)
Definition tree_wf (r : Resolver) : bool :=
  match r with
  | empty => true
  | path rs =>
      negb (Nat.eqb (List.length rs) 0) && forallb component_wf rs
  | _ => false
  end.

(** Trees that resolve on every record: no negative index, no slice with
    both bounds above zero, no numeric fragment name below one. *)
Fixpoint panic_free (r : Resolver) : bool :=
  match r with
  | empty => true
  | path rs => forallb panic_free rs
  | literal _ => true
  | index i => 0 <=? i
  | slice b e =>
      Int.in_range b && Int.in_range e && ((b <=? 0) || (e <=? 0))
  | fragment name =>
      match Atoi name with
      | Some n => 1 <=? n
      | None => true
      end
  | compound rs => forallb panic_free rs
  end.

(** The number of directory segments of the file of a record. *)
Definition segment_count (dat : Data) : Z :=
  Z.of_nat (List.length (segments (File dat))).

(** The panics of an access [xs[i]]. *)
Definition index_panic (p : panic) : Prop :=
  exists i n, p = IndexOutOfRange i n /\ 1 <= n /\ (i < 0 \/ i = n).

(** The decimal digit of [d], and numbers written with two and with three
    digits. *)
Definition digit (d : Z) : ascii := byte_of (byte_val "0" + d).

Definition two_digits (v : Z) : string :=
  String (digit (v / 10)) (String (digit (v mod 10)) "").

Definition three_digits (v : Z) : string :=
  String (digit (v / 100)) (two_digits (v mod 100)).

(** The first half of [time.absDate]: the year and the day of the year,
    from 0. *)
Definition year_yday (abs : Z) : Z * Z :=
  let d := abs / time.secondsPerDay in
  let n := d / time.daysPer400Years in
  let y := 400 * n in
  let d := d - time.daysPer400Years * n in
  let n := d / time.daysPer100Years in
  let n := n - n / 4 in
  let y := y + 100 * n in
  let d := d - time.daysPer100Years * n in
  let n := d / time.daysPer4Years in
  let y := y + 4 * n in
  let d := d - time.daysPer4Years * n in
  let n := d / 365 in
  let n := n - n / 4 in
  let y := y + n in
  let d := d - 365 * n in
  (y + time.absoluteZeroYear, d).

(** The second half of [time.absDate]: the month and the day of the month
    of a day of the year, in a leap year or not. *)
Definition month_day (leap : bool) (yday : Z) : Z * Z :=
  if leap && (yday =? 31 + 29 - 1) then (2, 29)
  else
    let day := if leap && (31 + 29 - 1 <? yday) then yday - 1 else yday in
    let month := day / 31 in
    let fin := time.daysBefore (month + 1) in
    let '(month, begin) :=
      if fin <=? day then (month + 1, fin) else (month, time.daysBefore month) in
    (month + 1, day - begin + 1).

(** Sorted: every string is at most those after it. *)
Fixpoint sorted (l : list string) : bool :=
  match l with
  | [] => true
  | x :: l' => forallb (String.leb x) l' && sorted l'
  end.

(** * Properties *)

(** ** The loop of [parse] terminates *)

(** Fuel above the distance from [offset] to the end of [str] is never
    exhausted: the result does not depend on it. *)
Lemma parse_loop_fuel :
  forall (f1 f2 : nat) (str : string) (offset : Z) (rs : list Resolver),
    len str - offset < Z.of_nat f1 ->
    len str - offset < Z.of_nat f2 ->
    parse_loop f1 str offset rs = parse_loop f2 str offset rs.
Proof.
  induction f1 as [|f1 IH]; intros [|f2] str offset rs H1 H2.
  - reflexivity.
  - simpl. replace (offset <? len str) with false; [reflexivity|].
    symmetry; apply Z.ltb_ge; simpl in H1; lia.
  - simpl. replace (offset <? len str) with false; [reflexivity|].
    symmetry; apply Z.ltb_ge; simpl in H2; lia.
  - simpl. destruct (offset <? len str); [|reflexivity].
    destruct (slice_from str offset) as [tail| |]; simpl; try reflexivity.
    destruct (IndexByte tail lcurly <? 0) eqn:Hs; [reflexivity|].
    apply Z.ltb_ge in Hs.
    destruct (slice_from str (offset + IndexByte tail lcurly)) as [tail'| |];
      simpl; try reflexivity.
    destruct (IndexByte tail' rcurly <? 0) eqn:He; [reflexivity|].
    apply Z.ltb_ge in He.
    destruct (_ =? 1); [reflexivity|].
    destruct (slice_str str offset _) as [q| |]; simpl; try reflexivity.
    destruct (slice_str str _ _) as [name| |]; simpl; try reflexivity.
    destruct (parseResolver name) as [r| |]; simpl; try reflexivity.
    apply IH; lia.
Qed.

(** [parse] gives the same result with any larger amount of fuel. *)
Lemma parse_fuel_enough :
  forall (str : string) (fuel : nat),
    (String.length str < fuel)%nat ->
    parse_loop fuel str 0 [] = parse_loop (S (String.length str)) str 0 [].
Proof.
  intros str fuel H. apply parse_loop_fuel; unfold len; lia.
Qed.

(** ** Index nodes *)

Lemma at_index_in_range :
  forall (xs : list string) (i : Z),
    0 <= i < Z.of_nat (List.length xs) ->
    at_index xs i = Ok (nth (Z.to_nat i) xs "").
Proof.
  intros xs i H. unfold at_index.
  replace ((0 <=? i) && (i <? Z.of_nat (List.length xs)))%bool with true
    by (symmetry; apply andb_true_iff; split; [apply Z.leb_le|apply Z.ltb_lt]; lia).
  destruct (nth_error xs (Z.to_nat i)) as [x|] eqn:E.
  - f_equal. symmetry. apply nth_error_nth. exact E.
  - apply nth_error_None in E. lia.
Qed.

Lemma at_index_out_of_range :
  forall (xs : list string) (i : Z),
    i < 0 \/ Z.of_nat (List.length xs) <= i ->
    at_index xs i = Panic (IndexOutOfRange i (Z.of_nat (List.length xs))).
Proof.
  intros xs i H. unfold at_index.
  replace ((0 <=? i) && (i <? Z.of_nat (List.length xs)))%bool with false;
    [reflexivity|].
  symmetry; apply andb_false_iff.
  destruct H; [left; apply Z.leb_gt|right; apply Z.ltb_ge]; lia.
Qed.

(** A non-negative index within the segments returns that segment. *)
Lemma index_Resolve_in_range :
  forall (n : Z) (dat : Data),
    0 <= n < Z.of_nat (List.length (segments (File dat))) ->
    Resolve (index n) dat = Ok (nth (Z.to_nat n) (segments (File dat)) "").
Proof.
  intros n dat H. simpl. unfold index_Resolve.
  replace (n <? _) with true by (symmetry; apply Z.ltb_lt; lia).
  apply at_index_in_range. exact H.
Qed.

(** An index from the segment count on returns the empty string. *)
Lemma index_Resolve_above :
  forall (n : Z) (dat : Data),
    Z.of_nat (List.length (segments (File dat))) <= n ->
    Resolve (index n) dat = Ok "".
Proof.
  intros n dat H. simpl. unfold index_Resolve.
  replace (n <? _) with false by (symmetry; apply Z.ltb_ge; lia).
  reflexivity.
Qed.

(** A negative index is below the guard [i.index < len(xs)] and reaches
    [xs[i.index]], which panics. *)
Lemma index_Resolve_negative :
  forall (n : Z) (dat : Data),
    n < 0 ->
    Resolve (index n) dat =
    Panic (IndexOutOfRange n (Z.of_nat (List.length (segments (File dat))))).
Proof.
  intros n dat H. simpl. unfold index_Resolve.
  replace (n <? _) with true by (symmetry; apply Z.ltb_lt; lia).
  apply at_index_out_of_range. left. exact H.
Qed.

(** C1 (fails on the code): resolution of a successfully parsed tree is
    claimed never to stop abnormally.  The template [{-1}] parses to an index
    node, and resolving it panics with an index out of range on every record;
    so do the slice [{3:3}] and the fragment [{+0}] on the sample record. *)
Theorem Resolve_parsed_tree_panics :
  ParseResolver "{-1}" = Ok (path [index (-1)]) /\
  (forall dat : Data, exists p, Resolve (path [index (-1)]) dat = Panic p) /\
  resolve_template "{3:3}" sample = Panic (IndexOutOfRange 3 3) /\
  resolve_template "{+0}" sample = Panic (IndexOutOfRange (-1) 1).
Proof.
  split; [reflexivity|]. split; [|split; reflexivity].
  intros dat. eexists.
  pose proof (index_Resolve_negative (-1) dat ltac:(lia)) as H.
  cbn [Resolve each] in *. rewrite H. reflexivity.
Qed.

(** C2 (fails on the code): a negative index is claimed to count from the
    end.  With File [/a/b/c/d.dat], [{0}] resolves to [a] and the
    out-of-range [{3}] to the empty string, but [{-1}] does not resolve to
    [c]: it panics at [xs[-1]]. *)
Theorem index_negative_panics :
  resolve_template "{0}" sample = Ok "a" /\
  resolve_template "{3}" sample = Ok "" /\
  resolve_template "{-1}" sample = Panic (IndexOutOfRange (-1) 3) /\
  resolve_template "{-1}" sample <> Ok "c".
Proof.
  repeat split; try reflexivity. discriminate.
Qed.

(** ** Slice nodes *)

Lemma wrap_in_range :
  forall z : Z, Int.min_int <= z <= Int.max_int -> Int.wrap z = z.
Proof.
  intros z H. unfold Int.wrap, Int.min_int, Int.max_int in *.
  rewrite Z.mod_small; lia.
Qed.

(** [normalize] adds the size to a negative bound and clamps the result
    into [0, size]. *)
Lemma normalize_clamp :
  forall index size : Z,
    Int.min_int <= index <= Int.max_int ->
    0 <= size <= Int.max_int ->
    normalize index size =
    Z.max 0 (Z.min size (if index <? 0 then size + index else index)).
Proof.
  intros index size Hi Hs. unfold normalize, Int.add.
  destruct (index <? 0) eqn:E; cbv zeta; try rewrite E.
  - apply Z.ltb_lt in E.
    rewrite wrap_in_range by (unfold Int.min_int, Int.max_int in *; lia).
    destruct (size + index <? 0) eqn:E1;
      [apply Z.ltb_lt in E1|apply Z.ltb_ge in E1]; [lia|].
    destruct (size <=? size + index) eqn:E2;
      [apply Z.leb_le in E2|apply Z.leb_gt in E2]; lia.
  - apply Z.ltb_ge in E.
    destruct (size <=? index) eqn:E2;
      [apply Z.leb_le in E2|apply Z.leb_gt in E2]; lia.
Qed.

Lemma normalize_bounds :
  forall index size : Z, 0 <= size -> 0 <= normalize index size <= size.
Proof.
  intros index size Hs. unfold normalize.
  destruct (_ <? 0) eqn:E1; [lia|]. apply Z.ltb_ge in E1.
  destruct (size <=? _) eqn:E2; [lia|]. apply Z.leb_gt in E2. lia.
Qed.

Section SliceCases.
Variables (b e : Z) (dat : Data).
Let xs := segments (File dat).
Let count := Z.of_nat (List.length xs).
Let nb := normalize b count.
Let ne := normalize e count.

(** Equal normalised bounds below the count: the segment there. *)
Lemma slice_Resolve_equal :
  nb = ne -> nb < count ->
  Resolve (slice b e) dat = Ok (nth (Z.to_nat nb) xs "").
Proof.
  intros Heq Hlt. cbn [Resolve]. unfold slice_Resolve.
  fold xs count nb ne. rewrite <- Heq, Z.eqb_refl.
  apply at_index_in_range. fold count.
  pose proof (normalize_bounds b count ltac:(subst count; lia)). fold nb in H. lia.
Qed.

(** Equal normalised bounds at the count: [xs[begin]] panics. *)
Lemma slice_Resolve_equal_at_count :
  nb = ne -> nb = count ->
  Resolve (slice b e) dat = Panic (IndexOutOfRange count count).
Proof.
  intros Heq Hc. cbn [Resolve]. unfold slice_Resolve.
  fold xs count nb ne. rewrite <- Heq, Z.eqb_refl, Hc.
  apply at_index_out_of_range. fold count. lia.
Qed.

(** Normalised begin below normalised end: [filepath.Join] of the
    segments from begin up to, not including, end. *)
Lemma slice_Resolve_less :
  nb < ne ->
  Resolve (slice b e) dat =
  Ok (filepath.Join (firstn (Z.to_nat (ne - nb)) (skipn (Z.to_nat nb) xs))).
Proof.
  intros Hlt. cbn [Resolve]. unfold slice_Resolve.
  fold xs count nb ne.
  replace (ne =? nb) with false by (symmetry; apply Z.eqb_neq; lia).
  replace (nb <? ne) with true by (symmetry; apply Z.ltb_lt; lia).
  unfold sub_slice. fold count.
  pose proof (normalize_bounds b count ltac:(subst count; lia)) as Hb.
  pose proof (normalize_bounds e count ltac:(subst count; lia)) as He.
  fold nb in Hb. fold ne in He.
  replace ((0 <=? nb) && (nb <=? ne) && (ne <=? count))%bool with true;
    [reflexivity|].
  symmetry. rewrite !andb_true_iff, !Z.leb_le. lia.
Qed.

(** Normalised begin above normalised end: the empty string. *)
Lemma slice_Resolve_greater :
  ne < nb -> Resolve (slice b e) dat = Ok "".
Proof.
  intros Hgt. cbn [Resolve]. unfold slice_Resolve.
  fold xs count nb ne.
  replace (ne =? nb) with false by (symmetry; apply Z.eqb_neq; lia).
  replace (nb <? ne) with false by (symmetry; apply Z.ltb_ge; lia).
  reflexivity.
Qed.
End SliceCases.

(** C3 (fails on the code): equal normalised bounds are claimed to return
    the segment at that position.  [normalize] clamps into [0, count]
    inclusive, and at [count] there is no segment: with File [/a/b/c/d.dat]
    (three segments) [{3:3}] and [{7:9}] panic at [xs[3]], while [{0:0}],
    [{1:3}] and [{2:1}] resolve as claimed. *)
Theorem slice_equal_bounds_at_count_panics :
  normalize 3 3 = 3 /\ normalize 7 3 = 3 /\ normalize 9 3 = 3 /\
  resolve_template "{3:3}" sample = Panic (IndexOutOfRange 3 3) /\
  resolve_template "{7:9}" sample = Panic (IndexOutOfRange 3 3) /\
  resolve_template "{0:0}" sample = Ok "a" /\
  resolve_template "{-1:-1}" sample = Ok "c" /\
  resolve_template "{1:3}" sample = Ok "b/c" /\
  resolve_template "{2:1}" sample = Ok "".
Proof.
  repeat split; reflexivity.
Qed.

(** ** The parser's errors *)

(** C4 (fails on the code): an empty placeholder anywhere in a component is
    claimed to give the "empty placeholder" error.  [parse] compares [end],
    counted from the opening brace, with [start], counted from [offset]:
    after one byte of literal text, [a{}] is let through and
    [parseResolver] panics on [str[0]] of the empty name, while the
    non-empty [a{b}] is refused as empty.  At the start of a component the
    check works, and a missing closing brace is reported. *)
Theorem parse_empty_placeholder_after_literal_panics :
  ParseResolver "a{}" = Panic (IndexOutOfRange 0 0) /\
  ParseResolver "a{b}" = Err ErrEmptyPlaceholder /\
  ParseResolver "{}" = Err ErrEmptyPlaceholder /\
  ParseResolver "{abc" = Err ErrMissingBrace /\
  ParseResolver "x/{abc" = Err ErrMissingBrace.
Proof.
  repeat split; reflexivity.
Qed.

(** ** Pattern *)

(** C5 (fails on the code): resolving with a Pattern that was never set is
    claimed to return the empty string.  The embedded interface of such a
    Pattern is nil, and the promoted call panics; a failed [Set] leaves it
    nil. *)
Theorem unset_Pattern_Resolve_panics :
  (forall dat : Data, Pattern_Resolve (mkPattern None) dat = Panic NilDereference) /\
  Set_ (mkPattern None) "{}" = Ok (mkPattern None, Some ErrEmptyPlaceholder).
Proof.
  split; [intros dat|]; reflexivity.
Qed.

(** C6: [Set] returns the error of a failed parse and leaves the pattern as
    it was, so that resolving any record gives what it gave before; after a
    successful parse the pattern holds the new tree and [Set] returns nil. *)
Theorem Set_replaces_only_on_success :
  forall (p : Pattern) (str : string),
    match ParseResolver str with
    | Err e =>
        exists p', Set_ p str = Ok (p', Some e) /\
                   Pattern_Resolver p' = Pattern_Resolver p /\
                   forall dat, Pattern_Resolve p' dat = Pattern_Resolve p dat
    | Ok r =>
        exists p', Set_ p str = Ok (p', None) /\
                   Pattern_Resolver p' = Some r /\
                   forall dat, Pattern_Resolve p' dat = Resolve r dat
    | Panic x => Set_ p str = Panic x
    end.
Proof.
  intros p str. unfold Set_.
  destruct (ParseResolver str) as [r|e|x].
  - exists (mkPattern (Some r)). repeat split.
  - exists p. repeat split.
  - reflexivity.
Qed.

(** The two failing templates of the specification, after [{year}] was
    configured: the error is returned and [{year}] stays active. *)
Example Set_failed_examples :
  forall p1, Set_ (mkPattern None) "{year}" = Ok (p1, None) ->
    Set_ p1 "{}" = Ok (p1, Some ErrEmptyPlaceholder) /\
    Set_ p1 "{abc" = Ok (p1, Some ErrMissingBrace) /\
    Pattern_Resolve p1 sample = Ok "2024".
Proof.
  intros p1 H. vm_compute in H. injection H as <-.
  repeat split; reflexivity.
Qed.

(** ** Fragment nodes *)

(** Outside the table, [fragment.Resolve] takes its default branch. *)
Lemma fragment_Resolve_default :
  forall (name : string) (dat : Data),
    is_keyword (ToLower name) = false ->
    Resolve (fragment name) dat =
    match Atoi name with
    | Some x =>
        let xs := segments name in
        let x := Int.sub x 1 in
        if x <? Z.of_nat (List.length xs) then at_index xs x else Ok ""
    | None => Ok ""
    end.
Proof.
  intros name dat H. cbn [Resolve]. unfold fragment_Resolve.
  unfold is_keyword, keywords in H. cbn [existsb] in H.
  repeat (apply orb_false_iff in H; destruct H as [?E H]).
  cbv zeta. rewrite E, E0, E1, E2, E3, E4, E5, E6, E7, E8, E9, E10, E11, E12,
    E13, E14, E15.
  reflexivity.
Qed.

(** An ASCII name that is neither a keyword nor a number resolves to the
    empty string. *)
Lemma fragment_Resolve_unknown :
  forall (name : string) (dat : Data),
    is_ascii name = true ->
    is_keyword (ToLower name) = false ->
    Atoi name = None ->
    Resolve (fragment name) dat = Ok "".
Proof.
  intros name dat _ Hk Ha. rewrite fragment_Resolve_default by exact Hk.
  rewrite Ha. reflexivity.
Qed.

(** C7 (fails on the code): a numeric name outside the table is claimed to
    return the segment [n-1] of the name's own directory segments when in
    range and the empty string otherwise.  [{+0}] parses to the fragment
    [+0]; its segments are those of [filepath.Dir("+0")], the single [.];
    [x] becomes -1, passes the guard [x < len(xs)], and [xs[-1]] panics.
    [{+1}] gives the segment [.], [{+2}] and [{bogus}] the empty string. *)
Theorem fragment_numeric_zero_panics :
  ParseResolver "{+0}" = Ok (path [fragment "+0"]) /\
  is_keyword (ToLower "+0") = false /\
  Atoi "+0" = Some 0 /\
  segments "+0" = ["."] /\
  resolve_template "{+0}" sample = Panic (IndexOutOfRange (-1) 1) /\
  resolve_template "{+1}" sample = Ok "." /\
  resolve_template "{+2}" sample = Ok "" /\
  resolve_template "{bogus}" sample = Ok "".
Proof.
  repeat split; reflexivity.
Qed.

(** C8: with AcqTime 2024-03-05T07:08:09Z, whatever the other fields, the
    template [{year}/{doy}/{month}-{day}] resolves to [2024/065/03-05]. *)
Theorem year_doy_month_day (dat : Data)
  (H : AcqTime dat = time.Date 2024 3 5 7 8 9) :
  resolve_template "{year}/{doy}/{month}-{day}" dat = Ok "2024/065/03-05".
Proof.
  destruct dat as [file source model mime type level acq].
  cbn [AcqTime] in H. subst acq.
  vm_compute. reflexivity.
Qed.

Lemma year_doy_month_day_witness :
  AcqTime sample = time.Date 2024 3 5 7 8 9 /\
  resolve_template "{year}/{doy}/{month}-{day}" sample = Ok "2024/065/03-05".
Proof.
  split; [reflexivity|apply (year_doy_month_day sample); reflexivity].
Defined.

(** The date of the example, as seconds since the epoch and back. *)
Example Date_2024_03_05 :
  time.Date 2024 3 5 7 8 9 = time.mkTime 1709622489 0 /\
  time.absDate (time.abs (time.mkTime 1709622489 0)) = (2024, 3, 5, 64).
Proof.
  split; reflexivity.
Qed.

(** ** Path nodes and [filepath.Join] *)

Lemma concat_cons2 :
  forall (sep x y : string) (l : list string),
    String.concat sep (x :: y :: l) = x ++ sep ++ String.concat sep (y :: l).
Proof. reflexivity. Qed.

Lemma Split_not_nil : forall (s : string) (sep : ascii), Split s sep <> [].
Proof.
  intros s sep. destruct s as [|c s]; simpl; [discriminate|].
  destruct (Ascii.eqb c sep); [discriminate|].
  destruct (Split s sep); discriminate.
Qed.

Lemma Split_app :
  forall (a b : string) (sep : ascii),
    Split (a ++ String sep b) sep = (Split a sep ++ Split b sep)%list.
Proof.
  induction a as [|c a IH]; intros b sep; simpl.
  - rewrite Ascii.eqb_refl. reflexivity.
  - destruct (Ascii.eqb c sep).
    + rewrite IH. reflexivity.
    + rewrite IH. pose proof (Split_not_nil a sep) as Hn.
      destruct (Split a sep) as [|x xs]; [contradiction|reflexivity].
Qed.

Lemma Split_concat :
  forall (l : list string) (e : string),
    Split (String.concat "/" (e :: l)) Separator =
    flat_map (fun x => Split x Separator) (e :: l).
Proof.
  induction l as [|e2 l IH]; intros e.
  - simpl. rewrite app_nil_r. reflexivity.
  - rewrite concat_cons2.
    change ("/" ++ String.concat "/" (e2 :: l))
      with (String Separator (String.concat "/" (e2 :: l))).
    rewrite Split_app, IH. reflexivity.
Qed.

Lemma Split_no_sep :
  forall s : string, Forall (fun e => no_sep e = true) (Split s Separator).
Proof.
  induction s as [|c s IH]; simpl.
  - constructor; [reflexivity|constructor].
  - destruct (Ascii.eqb c Separator) eqn:E.
    + constructor; [reflexivity|exact IH].
    + destruct (Split s Separator) as [|x xs].
      * constructor; [simpl; rewrite E; reflexivity|constructor].
      * inversion IH as [|? ? Hx Hxs]; subst.
        constructor; [simpl; rewrite E, Hx; reflexivity|exact Hxs].
Qed.

(** *** What [Clean] writes *)

Lemma clean_step_empty :
  forall (r : bool) (out : list string), filepath.clean_step r out "" = out.
Proof. reflexivity. Qed.

Lemma clean_step_ok :
  forall (r : bool) (out : list string) (elem : string),
    Forall (fun e => elem_ok e = true) out ->
    no_sep elem = true ->
    Forall (fun e => elem_ok e = true) (filepath.clean_step r out elem).
Proof.
  intros r out elem Hout He. unfold filepath.clean_step.
  destruct (String.eqb elem "") eqn:E0; [exact Hout|].
  destruct (String.eqb elem filepath.dot); [exact Hout|].
  destruct (String.eqb elem filepath.dotdot).
  - destruct out as [|top rest].
    + destruct r; repeat constructor.
    + destruct (String.eqb top filepath.dotdot).
      * destruct r; [exact Hout|constructor; [reflexivity|exact Hout]].
      * inversion Hout; assumption.
  - constructor; [|exact Hout].
    unfold elem_ok, nonempty. rewrite E0, He. reflexivity.
Qed.

Lemma clean_fold_ok :
  forall (r : bool) (elems out : list string),
    Forall (fun e => no_sep e = true) elems ->
    Forall (fun e => elem_ok e = true) out ->
    Forall (fun e => elem_ok e = true)
           (fold_left (filepath.clean_step r) elems out).
Proof.
  intros r elems. induction elems as [|e elems IH]; intros out He Hout; simpl.
  - exact Hout.
  - inversion He; subst. apply IH; [assumption|].
    apply clean_step_ok; assumption.
Qed.

Lemma clean_elems_ok :
  forall (r : bool) (path : string),
    Forall (fun e => elem_ok e = true)
           (filepath.clean_elems r (Split path Separator)).
Proof.
  intros r path. unfold filepath.clean_elems.
  apply Forall_rev. apply clean_fold_ok; [apply Split_no_sep|constructor].
Qed.

Lemma elem_ok_inv :
  forall e : string,
    elem_ok e = true ->
    exists c e', e = String c e' /\ Ascii.eqb c Separator = false /\ no_sep e' = true.
Proof.
  intros [|c e'] H; [discriminate|].
  unfold elem_ok in H. simpl in H.
  apply andb_true_iff in H. destruct H as [Hc He].
  exists c, e'. repeat split; [|exact He].
  destruct (Ascii.eqb c Separator); [discriminate|reflexivity].
Qed.

Lemma has_double_sep_app :
  forall e t : string,
    no_sep e = true -> has_double_sep (e ++ t) = has_double_sep t.
Proof.
  induction e as [|c e IH]; intros t H; simpl; [reflexivity|].
  simpl in H. apply andb_true_iff in H. destruct H as [Hc He].
  destruct (Ascii.eqb c Separator); [discriminate|]. simpl. apply IH, He.
Qed.

Lemma has_double_sep_no_sep :
  forall e : string, no_sep e = true -> has_double_sep e = false.
Proof.
  induction e as [|c e IH]; intros H; [reflexivity|].
  simpl in H. apply andb_true_iff in H. destruct H as [Hc He].
  simpl. rewrite (IH He).
  destruct (Ascii.eqb c Separator); [discriminate|reflexivity].
Qed.

Lemma ends_with_sep_app :
  forall a b : string, b <> "" -> ends_with_sep (a ++ b) = ends_with_sep b.
Proof.
  induction a as [|c a IH]; intros b Hb; simpl; [reflexivity|].
  rewrite <- (IH b Hb).
  destruct (a ++ b) eqn:E; [|reflexivity].
  destruct a; [simpl in E; contradiction|discriminate].
Qed.

Lemma ends_with_sep_no_sep :
  forall e : string, no_sep e = true -> ends_with_sep e = false.
Proof.
  induction e as [|c e IH]; intros H; [reflexivity|].
  simpl in H. apply andb_true_iff in H. destruct H as [Hc He].
  simpl. destruct e; [|apply IH, He].
  destruct (Ascii.eqb c Separator); [discriminate|reflexivity].
Qed.

(** Elements joined by the separator: no separator at either end, none
    doubled. *)
Lemma concat_elems_shape :
  forall (l : list string) (e : string),
    Forall (fun x => elem_ok x = true) (e :: l) ->
    filepath.rooted (String.concat "/" (e :: l)) = false /\
    has_double_sep (String.concat "/" (e :: l)) = false /\
    ends_with_sep (String.concat "/" (e :: l)) = false /\
    String.concat "/" (e :: l) <> "".
Proof.
  induction l as [|e2 l IH]; intros e H; inversion H as [|? ? He Hl]; subst.
  - destruct (elem_ok_inv e He) as (c & e' & -> & Hc & Hn).
    cbn [String.concat filepath.rooted]. repeat split.
    + exact Hc.
    + apply has_double_sep_no_sep. simpl. rewrite Hc. exact Hn.
    + apply ends_with_sep_no_sep. simpl. rewrite Hc. exact Hn.
    + discriminate.
  - destruct (IH e2 Hl) as (Hr & Hd & Hends & Hne).
    destruct (elem_ok_inv e He) as (c & e' & -> & Hc & Hn).
    rewrite concat_cons2. repeat split.
    + simpl. exact Hc.
    + rewrite has_double_sep_app by (simpl; rewrite Hc; exact Hn).
      simpl. simpl in Hr, Hd. rewrite Hr, Hd. reflexivity.
    + rewrite ends_with_sep_app by discriminate.
      change ("/" ++ String.concat "/" (e2 :: l))
        with (String "/" "" ++ String.concat "/" (e2 :: l)).
      rewrite ends_with_sep_app by exact Hne. exact Hends.
    + discriminate.
Qed.

(** A cleaned path has no doubled separator, ends with a separator only
    when it is the root, and is rooted exactly when the path is. *)
Lemma Clean_shape :
  forall p : string,
    has_double_sep (filepath.Clean p) = false /\
    (ends_with_sep (filepath.Clean p) = true -> filepath.Clean p = "/") /\
    filepath.rooted (filepath.Clean p) = filepath.rooted p.
Proof.
  intros p. unfold filepath.Clean, JoinStrings.
  pose proof (clean_elems_ok (filepath.rooted p) p) as Hok.
  destruct (filepath.rooted p);
    destruct (filepath.clean_elems _ (Split p Separator)) as [|e l].
  - repeat split.
  - destruct (concat_elems_shape l e Hok) as (Hr & Hd & He & Hne).
    repeat split.
    + cbn [has_double_sep]. rewrite Hr, Hd. reflexivity.
    + intros H. exfalso.
      change (String Separator (String.concat "/" (e :: l)))
        with (String Separator "" ++ String.concat "/" (e :: l)) in H.
      rewrite ends_with_sep_app in H by exact Hne. congruence.
  - repeat split. discriminate.
  - destruct (concat_elems_shape l e Hok) as (Hr & Hd & He & Hne).
    repeat split; [exact Hd|congruence|exact Hr].
Qed.

(** *** Empty elements are dropped *)

Lemma clean_fold_filter :
  forall (r : bool) (elems out : list string),
    fold_left (filepath.clean_step r) elems out =
    fold_left (filepath.clean_step r) (filter nonempty elems) out.
Proof.
  intros r elems. induction elems as [|e elems IH]; intros out; simpl.
  - reflexivity.
  - destruct e as [|c e]; simpl.
    + apply IH.
    + apply IH.
Qed.

Lemma pieces_filter :
  forall l : list string,
    filter nonempty (flat_map (fun x => Split x Separator) l) =
    filter nonempty (flat_map (fun x => Split x Separator) (filter nonempty l)).
Proof.
  induction l as [|e l IH]; [reflexivity|].
  destruct e as [|c e].
  - simpl. exact IH.
  - cbn [filter nonempty String.eqb negb flat_map].
    rewrite !filter_app, IH. reflexivity.
Qed.

Lemma rooted_concat :
  forall (e : string) (l : list string),
    e <> "" ->
    filepath.rooted (String.concat "/" (e :: l)) = filepath.rooted e.
Proof.
  intros e l He. destruct e as [|c e]; [contradiction|].
  destruct l; reflexivity.
Qed.

Lemma Clean_concat_filter :
  forall (e : string) (l : list string),
    e <> "" ->
    filepath.Clean (String.concat "/" (e :: l)) =
    filepath.Clean (String.concat "/" (e :: filter nonempty l)).
Proof.
  intros e l He. unfold filepath.Clean, filepath.clean_elems.
  rewrite !rooted_concat by exact He. rewrite !Split_concat.
  rewrite (clean_fold_filter _ (flat_map _ (e :: l))).
  rewrite (clean_fold_filter _ (flat_map _ (e :: filter nonempty l))).
  rewrite (pieces_filter (e :: l)).
  replace (filter nonempty (e :: l)) with (e :: filter nonempty l)
    by (destruct e; [contradiction|reflexivity]).
  reflexivity.
Qed.

(** [Join] gives the cleaned separator-join of its non-empty elements. *)
Lemma Join_nonempty :
  forall l : list string,
    filepath.Join l =
    match filter nonempty l with
    | [] => ""
    | e :: l' => filepath.Clean (JoinStrings (e :: l') "/")
    end.
Proof.
  induction l as [|e l IH]; [reflexivity|].
  destruct e as [|c e].
  - exact IH.
  - cbn [filepath.Join String.eqb filter nonempty negb].
    unfold JoinStrings. apply Clean_concat_filter. discriminate.
Qed.

Lemma filter_nonempty_idem :
  forall l : list string, filter nonempty (filter nonempty l) = filter nonempty l.
Proof.
  induction l as [|e l IH]; [reflexivity|].
  simpl. destruct (nonempty e) eqn:E; [|exact IH].
  simpl. rewrite E, IH. reflexivity.
Qed.

(** Elements that are empty do not change the result of [Join]. *)
Lemma Join_filter :
  forall l : list string, filepath.Join l = filepath.Join (filter nonempty l).
Proof.
  intros l. rewrite (Join_nonempty l), (Join_nonempty (filter nonempty l)).
  rewrite filter_nonempty_idem. reflexivity.
Qed.

Lemma Join_shape :
  forall l : list string,
    has_double_sep (filepath.Join l) = false /\
    (ends_with_sep (filepath.Join l) = true -> filepath.Join l = "/") /\
    filepath.rooted (filepath.Join l) =
    match filter nonempty l with
    | [] => false
    | e :: _ => filepath.rooted e
    end.
Proof.
  intros l. rewrite Join_nonempty.
  pose proof (filter_In nonempty) as Hin.
  destruct (filter nonempty l) as [|e l'] eqn:E.
  - repeat split. discriminate.
  - destruct (Clean_shape (JoinStrings (e :: l') "/")) as (Hd & He & Hr).
    repeat split; [exact Hd|exact He|].
    rewrite Hr. unfold JoinStrings. apply rooted_concat.
    assert (Hn : nonempty e = true)
      by (apply (Hin e l); rewrite E; left; reflexivity).
    intros ->. discriminate.
Qed.

Lemma each_Forall2 :
  forall (A B : Type) (f : A -> result B) (l : list A) (ys : list B),
    Forall2 (fun x y => f x = Ok y) l ys -> each f l = Ok ys.
Proof.
  intros A B f l ys H. induction H as [|x y l ys Hx _ IH]; [reflexivity|].
  cbn [each] in *. rewrite Hx. cbn [bind]. rewrite IH. reflexivity.
Qed.

(** C10: when the children of a path node resolve to [outs], the node
    resolves to [filepath.Join] of [outs]: the cleaned separator-join of the
    non-empty strings of [outs] (empty ones are dropped, and a leading empty
    one adds no separator); the output has no doubled separator, ends with a
    separator only when it is the root, and starts with one exactly when the
    first non-empty child output does; and there are outputs whose [Join] is
    not their plain join by the separator. *)
Theorem path_Resolve_Join (rs : list Resolver) (dat : Data) (outs : list string)
  (H : Forall2 (fun r s => Resolve r dat = Ok s) rs outs) :
  Resolve (path rs) dat = Ok (filepath.Join outs) /\
  filepath.Join outs = filepath.Join (filter nonempty outs) /\
  filepath.Join ("" :: outs) = filepath.Join outs /\
  filepath.Join outs =
    match filter nonempty outs with
    | [] => ""
    | e :: l => filepath.Clean (JoinStrings (e :: l) "/")
    end /\
  has_double_sep (filepath.Join outs) = false /\
  (ends_with_sep (filepath.Join outs) = true -> filepath.Join outs = "/") /\
  filepath.rooted (filepath.Join outs) =
    match filter nonempty outs with
    | [] => false
    | e :: _ => filepath.rooted e
    end /\
  (exists l : list string, filepath.Join l <> JoinStrings l "/").
Proof.
  split.
  - cbn [Resolve]. rewrite (each_Forall2 _ _ _ _ _ H). reflexivity.
  - split; [apply Join_filter|]. split; [reflexivity|].
    split; [apply Join_nonempty|].
    destruct (Join_shape outs) as (Hd & He & Hr).
    repeat split; try assumption.
    exists ["a"; ".."; "b"]. discriminate.
Qed.

(** The cleaning shows on the template [a/../b]: its three literal children
    resolve to [a], [..] and [b], and the path node resolves to [b], not to
    their separator-join. *)
Lemma path_Resolve_Join_witness :
  Forall2 (fun r s => Resolve r sample = Ok s)
          [literal "a"; literal ".."; literal "b"] ["a"; ".."; "b"] /\
  ParseResolver "a/../b" = Ok (path [literal "a"; literal ".."; literal "b"]) /\
  Resolve (path [literal "a"; literal ".."; literal "b"]) sample = Ok "b" /\
  JoinStrings ["a"; ".."; "b"] "/" = "a/../b".
Proof.
  assert (Hc : Forall2 (fun r s => Resolve r sample = Ok s)
                 [literal "a"; literal ".."; literal "b"] ["a"; ".."; "b"])
    by (repeat constructor).
  split; [exact Hc|]. split; [reflexivity|]. split; [|reflexivity].
  exact (proj1 (path_Resolve_Join _ sample _ Hc)).
Defined.

(** ** Title-cased fragments *)

Lemma isSeparator_word_byte :
  forall c : ascii, isSeparator c = negb (word_byte c).
Proof.
  intros c. unfold isSeparator, word_byte.
  destruct (isNumber c), (is_lower c), (is_upper c), (Ascii.eqb c "_");
    reflexivity.
Qed.

Lemma Title_map_capitalize :
  forall (s : string) (prev : ascii),
    Title_map prev s =
    capitalize_tokens (fun c => negb (word_byte c)) (isSeparator prev) s.
Proof.
  induction s as [|c s IH]; intros prev; simpl; [reflexivity|].
  rewrite IH, (isSeparator_word_byte c). reflexivity.
Qed.

Lemma ReplaceAll_space :
  forall s : string, ReplaceAll s " " "" = delete_bytes is_space s.
Proof.
  unfold ReplaceAll. induction s as [|c s IH]; [reflexivity|].
  cbn [Replace_loop HasPrefix delete_bytes String.length Nat.sub].
  unfold is_space. rewrite andb_true_r.
  destruct (Ascii.eqb c " "); cbn [append]; rewrite IH; reflexivity.
Qed.

(** The closure [replace] computes [format_by_words]. *)
Lemma replace_format_by_words :
  forall s : string, replace s = format_by_words s.
Proof.
  intros s. unfold replace, format_by_words, Title.
  rewrite ReplaceAll_space, Title_map_capitalize. reflexivity.
Qed.

(** The specification's wording of C9 fails on the code: [-] is not
    whitespace, yet the letter after it is upper-cased ([a-b] gives [A-B],
    not [A-b]); a tab is whitespace, yet it is kept ([a], tab, [b] gives
    [A], tab, [B], not [AB]). *)
Lemma format_by_whitespace_counterexample :
  let hyphen := mkData "" "a-b" "" "" "" 0 (time.mkTime 0 0) in
  let tab := mkData "" (String "a" (String "009" (String "b" ""))) "" "" "" 0
                    (time.mkTime 0 0) in
  Resolve (fragment "source") hyphen = Ok "A-B" /\
  format_by_whitespace (Source hyphen) = "A-b" /\
  Resolve (fragment "source") hyphen <> Ok (format_by_whitespace (Source hyphen)) /\
  Resolve (fragment "source") tab = Ok (String "A" (String "009" (String "B" ""))) /\
  format_by_whitespace (Source tab) = "AB" /\
  Resolve (fragment "source") tab <> Ok (format_by_whitespace (Source tab)).
Proof.
  cbv zeta. repeat split; try reflexivity; discriminate.
Qed.

(** C9, amended: on ASCII fields, the source, model, mime, format and type
    fragments upper-case the first byte of every run of letters, digits and
    underscores (every other byte delimits, not only whitespace), whatever
    its case, and then delete the space characters (and no other
    whitespace); for mime and format the field is the subtype [splitMime]
    extracts.  [main unit] becomes [MainUnit], the template [{source}]
    resolves a record with that Source to it, and [{run}] returns Source
    as it is. *)
Theorem title_case_fragments (dat : Data)
  (Hsource : is_ascii (Source dat) = true)
  (Hmodel : is_ascii (Model dat) = true)
  (Hmime : is_ascii (Mime dat) = true)
  (Htype : is_ascii (Type_ dat) = true) :
  Resolve (fragment "source") dat = Ok (format_by_words (Source dat)) /\
  Resolve (fragment "model") dat = Ok (format_by_words (Model dat)) /\
  Resolve (fragment "mime") dat = Ok (format_by_words (splitMime (Mime dat))) /\
  Resolve (fragment "format") dat = Ok (format_by_words (splitMime (Mime dat))) /\
  Resolve (fragment "type") dat = Ok (format_by_words (Type_ dat)) /\
  Resolve (fragment "run") dat = Ok (Source dat) /\
  format_by_words "main unit" = "MainUnit" /\
  (Source dat = "main unit" ->
   resolve_template "{source}" dat = Ok "MainUnit" /\
   resolve_template "{run}" dat = Ok "main unit").
Proof.
  repeat split; try (cbn; rewrite replace_format_by_words; reflexivity).
  - destruct dat as [file source model mime type level acq].
    cbn [Source] in *. subst source. reflexivity.
  - destruct dat as [file source model mime type level acq].
    cbn [Source] in *. subst source. reflexivity.
Qed.

Lemma title_case_fragments_witness :
  is_ascii (Source sample) = true /\
  Resolve (fragment "source") sample = Ok "MainUnit" /\
  Resolve (fragment "mime") sample = Ok "Png" /\
  resolve_template "{source}" sample = Ok "MainUnit".
Proof.
  pose proof (title_case_fragments sample eq_refl eq_refl eq_refl eq_refl)
    as (Hs & _ & Hm & _ & _ & _ & _ & Ht).
  split; [reflexivity|]. split; [exact Hs|]. split; [exact Hm|].
  exact (proj1 (Ht eq_refl)).
Defined.

(** ** The default branch of fragment nodes on numeric names *)

Lemma Atoi_first_byte :
  forall (c : ascii) (s : string) (n : Z),
    Atoi (String c s) = Some n ->
    (isNumber c || Ascii.eqb c "-" || Ascii.eqb c "+")%bool = true.
Proof.
  intros c s n H. unfold Atoi in H.
  destruct (isNumber c) eqn:En; [reflexivity|].
  destruct (Ascii.eqb c "-"); [reflexivity|].
  destruct (Ascii.eqb c "+"); [reflexivity|].
  cbn [orb digits_val] in H. rewrite En in H. discriminate.
Qed.

Lemma Atoi_in_range :
  forall (s : string) (n : Z), Atoi s = Some n -> Int.in_range n = true.
Proof.
  intros s n H. unfold Atoi in H. destruct s as [|c s]; [discriminate|].
  destruct (if (Ascii.eqb c "-" || Ascii.eqb c "+")%bool then s else String c s);
    [discriminate|].
  destruct (digits_val 0 _) as [v|]; [|discriminate].
  destruct (Int.in_range _) eqn:E; [|discriminate].
  injection H as <-. exact E.
Qed.

Lemma digits_val_no_sep :
  forall (s : string) (acc v : Z), digits_val acc s = Some v -> no_sep s = true.
Proof.
  induction s as [|c s IH]; intros acc v H; [reflexivity|].
  simpl in H. destruct (isNumber c) eqn:E; [|discriminate].
  simpl. rewrite (IH _ _ H), andb_true_r.
  destruct (Ascii.eqb c Separator) eqn:Ec; [|reflexivity].
  apply Ascii.eqb_eq in Ec. subst c. discriminate.
Qed.

(** A name [Atoi] accepts holds no separator. *)
Lemma Atoi_no_sep :
  forall (s : string) (n : Z), Atoi s = Some n -> no_sep s = true.
Proof.
  intros s n H. unfold Atoi in H. destruct s as [|c s]; [discriminate|].
  destruct (Ascii.eqb c "-" || Ascii.eqb c "+")%bool eqn:E.
  - destruct s as [|c' s]; [discriminate|].
    destruct (digits_val 0 (String c' s)) as [v|] eqn:D; [|discriminate].
    change (no_sep (String c (String c' s)))
      with (negb (Ascii.eqb c Separator) && no_sep (String c' s))%bool.
    rewrite (digits_val_no_sep _ _ _ D), andb_true_r.
    destruct (Ascii.eqb c Separator) eqn:Ec; [|reflexivity].
    apply Ascii.eqb_eq in Ec. subst c. discriminate.
  - destruct (digits_val 0 (String c s)) as [v|] eqn:D; [|discriminate].
    exact (digits_val_no_sep _ _ _ D).
Qed.

Lemma upto_last_sep_no_sep :
  forall s : string, no_sep s = true -> filepath.upto_last_sep s = "".
Proof.
  induction s as [|c s IH]; intros H; [reflexivity|].
  simpl in H. apply andb_true_iff in H. destruct H as [Hc Hs].
  simpl. rewrite (IH Hs).
  destruct (Ascii.eqb c Separator); [discriminate|reflexivity].
Qed.

(** The directory segments of a numeric name are the single [.]. *)
Lemma segments_numeric :
  forall (name : string) (n : Z), Atoi name = Some n -> segments name = ["."].
Proof.
  intros name n H. unfold segments, filepath.Dir.
  rewrite (upto_last_sep_no_sep _ (Atoi_no_sep _ _ H)). reflexivity.
Qed.

Lemma sign_or_digit_not_initial :
  forall c : ascii,
    (isNumber c || Ascii.eqb c "-" || Ascii.eqb c "+")%bool = true ->
    forallb (fun k => negb (Ascii.eqb (lower_byte c) k))
            ["r"; "l"; "s"; "m"; "f"; "t"; "y"; "d"; "h"]%char = true.
Proof.
  intros c H.
  destruct c as [[] [] [] [] [] [] [] []];
    vm_compute in H; try discriminate H; reflexivity.
Qed.

(** A numeric name is not a keyword. *)
Lemma Atoi_not_keyword :
  forall (name : string) (n : Z),
    Atoi name = Some n -> is_keyword (ToLower name) = false.
Proof.
  intros name n H. destruct name as [|c s]; [discriminate|].
  pose proof (sign_or_digit_not_initial c (Atoi_first_byte _ _ _ H)) as Hc.
  cbn [forallb] in Hc. rewrite !andb_true_iff, !negb_true_iff in Hc.
  destruct Hc as (Hr & Hl & Hs & Hm & Hf & Ht & Hy & Hd & Hh & _).
  unfold is_keyword, keywords. cbn [ToLower map_str existsb].
  unfold levelRun, levelLevel, levelSource, levelModel, levelMime,
    levelFormat, levelType, levelYear, levelDoy, levelMonth, levelDay,
    levelHour, levelMinShort, levelMinLong, levelSecShort, levelSecLong,
    levelStamp.
  cbn [String.eqb].
  rewrite Hr, Hl, Hs, Hm, Hf, Ht, Hy, Hd, Hh. reflexivity.
Qed.

(** The default branch on a numeric name [n]: the segment [.] for 1, the
    empty string above 1, and a panic at [xs[n-1]] from 0 down (at the least
    [int] the decrement wraps around to the greatest one). *)
Lemma fragment_Resolve_numeric :
  forall (name : string) (n : Z) (dat : Data),
    Atoi name = Some n ->
    Resolve (fragment name) dat =
    if n =? 1 then Ok "."
    else if (1 <? n) || (n =? Int.min_int) then Ok ""
    else Panic (IndexOutOfRange (n - 1) 1).
Proof.
  intros name n dat H.
  rewrite (fragment_Resolve_default _ _ (Atoi_not_keyword _ _ H)), H.
  rewrite (segments_numeric _ _ H). cbv zeta.
  change (Z.of_nat (List.length ["."])) with 1.
  pose proof (Atoi_in_range _ _ H) as Hr. unfold Int.in_range in Hr.
  apply andb_true_iff in Hr. rewrite !Z.leb_le in Hr.
  destruct (n =? Int.min_int) eqn:Emin.
  - apply Z.eqb_eq in Emin. subst n. reflexivity.
  - apply Z.eqb_neq in Emin. unfold Int.sub.
    rewrite wrap_in_range by (unfold Int.min_int, Int.max_int in *; lia).
    rewrite orb_false_r.
    destruct (n =? 1) eqn:E1.
    + apply Z.eqb_eq in E1. subst n. reflexivity.
    + apply Z.eqb_neq in E1. destruct (1 <? n) eqn:E2.
      * apply Z.ltb_lt in E2.
        replace (n - 1 <? 1) with false by (symmetry; apply Z.ltb_ge; lia).
        reflexivity.
      * apply Z.ltb_ge in E2.
        replace (n - 1 <? 1) with true by (symmetry; apply Z.ltb_lt; lia).
        apply (at_index_out_of_range ["."]). left. lia.
Qed.

(** ** Slices of the directory segments join without change *)

Lemma normal_not_dotdot :
  forall e : string, normal_elem e = true -> is_dotdot e = false.
Proof.
  intros e H. unfold normal_elem in H. apply andb_true_iff in H.
  destruct H as [_ H]. apply negb_true_iff in H. exact H.
Qed.

Lemma normal_canon :
  forall l : list string, forallb normal_elem l = true -> canon l = true.
Proof.
  intros [|e l] H; [reflexivity|]. cbn [canon].
  cbn [forallb] in H. apply andb_true_iff in H. destruct H as [He Hl].
  rewrite (normal_not_dotdot e He). cbn [forallb]. rewrite He, Hl. reflexivity.
Qed.

Lemma dotdots_canon :
  forall l : list string, forallb is_dotdot l = true -> canon l = true.
Proof.
  induction l as [|e l IH]; intros H; [reflexivity|].
  cbn [forallb] in H. apply andb_true_iff in H. destruct H as [He Hl].
  cbn [canon]. rewrite He. apply IH, Hl.
Qed.

Lemma canon_snoc_normal :
  forall (l : list string) (e : string),
    canon l = true -> normal_elem e = true -> canon (l ++ [e]) = true.
Proof.
  induction l as [|e0 l IH]; intros e Hl He.
  - apply normal_canon. cbn [app forallb]. rewrite He. reflexivity.
  - cbn [app canon] in *. destruct (is_dotdot e0); [apply IH; assumption|].
    change (e0 :: l ++ [e])%list with ((e0 :: l) ++ [e])%list.
    rewrite forallb_app, Hl. cbn [forallb]. rewrite He. reflexivity.
Qed.

Lemma canon_app_l :
  forall l l' : list string, canon (l ++ l') = true -> canon l = true.
Proof.
  induction l as [|e0 l IH]; intros l' H; [reflexivity|].
  cbn [app canon] in *. destruct (is_dotdot e0); [exact (IH _ H)|].
  change (e0 :: l ++ l')%list with ((e0 :: l) ++ l')%list in H.
  rewrite forallb_app in H. apply andb_true_iff in H. exact (proj1 H).
Qed.

Lemma canon_snoc_dotdot :
  forall l : list string,
    canon (l ++ [filepath.dotdot]) = true ->
    forallb is_dotdot (l ++ [filepath.dotdot]) = true.
Proof.
  induction l as [|e0 l IH]; intros H; [reflexivity|].
  cbn [app canon] in H. cbn [app forallb].
  destruct (is_dotdot e0).
  - exact (IH H).
  - exfalso. rewrite forallb_forall in H.
    specialize (H filepath.dotdot).
    assert (Hin : In filepath.dotdot (e0 :: l ++ [filepath.dotdot]))
      by (right; apply in_or_app; right; left; reflexivity).
    specialize (H Hin). vm_compute in H. discriminate H.
Qed.

Lemma canon_for_app_l :
  forall (r : bool) (l l' : list string),
    canon_for r (l ++ l') = true -> canon_for r l = true.
Proof.
  intros [|] l l' H; cbn [canon_for] in *.
  - rewrite forallb_app in H. apply andb_true_iff in H. exact (proj1 H).
  - exact (canon_app_l _ _ H).
Qed.

Lemma canon_for_snoc_normal :
  forall (r : bool) (l : list string) (e : string),
    canon_for r l = true -> normal_elem e = true ->
    canon_for r (l ++ [e]) = true.
Proof.
  intros [|] l e Hl He; cbn [canon_for] in *.
  - rewrite forallb_app, Hl. cbn [forallb]. rewrite He. reflexivity.
  - apply canon_snoc_normal; assumption.
Qed.

(** [Clean] keeps its output in this form at every element it reads. *)
Lemma clean_step_canon :
  forall (r : bool) (out : list string) (elem : string),
    no_sep elem = true ->
    canon_for r (rev out) = true ->
    canon_for r (rev (filepath.clean_step r out elem)) = true.
Proof.
  intros r out elem Hsep Hout. unfold filepath.clean_step.
  destruct (String.eqb elem "") eqn:E0; [exact Hout|].
  destruct (String.eqb elem filepath.dot) eqn:E1; [exact Hout|].
  destruct (String.eqb elem filepath.dotdot) eqn:E2.
  - destruct out as [|top rest]; [destruct r; reflexivity|].
    destruct (String.eqb top filepath.dotdot) eqn:Et.
    + destruct r; [exact Hout|].
      apply String.eqb_eq in Et. subst top.
      cbn [rev canon_for] in *. apply dotdots_canon.
      rewrite forallb_app, (canon_snoc_dotdot _ Hout). reflexivity.
    + cbn [rev] in Hout. exact (canon_for_app_l _ _ _ Hout).
  - cbn [rev]. apply canon_for_snoc_normal; [exact Hout|].
    unfold normal_elem, elem_ok, nonempty. rewrite E0, E1, E2, Hsep. reflexivity.
Qed.

Lemma clean_fold_canon :
  forall (r : bool) (elems out : list string),
    Forall (fun e => no_sep e = true) elems ->
    canon_for r (rev out) = true ->
    canon_for r (rev (fold_left (filepath.clean_step r) elems out)) = true.
Proof.
  intros r elems. induction elems as [|e elems IH]; intros out He Hout.
  - exact Hout.
  - inversion He; subst. cbn [fold_left]. apply IH; [assumption|].
    apply clean_step_canon; assumption.
Qed.

Lemma clean_elems_canon :
  forall (r : bool) (p : string),
    canon_for r (filepath.clean_elems r (Split p Separator)) = true.
Proof.
  intros r p. unfold filepath.clean_elems.
  apply clean_fold_canon; [apply Split_no_sep|destruct r; reflexivity].
Qed.

Lemma normal_elem_ok :
  forall e : string, normal_elem e = true -> elem_ok e = true.
Proof.
  intros e H. unfold normal_elem in H.
  apply andb_true_iff in H. destruct H as [H _].
  apply andb_true_iff in H. exact (proj1 H).
Qed.

Lemma canon_elem_ok :
  forall l : list string,
    canon l = true -> Forall (fun e => elem_ok e = true) l.
Proof.
  induction l as [|e l IH]; intros H; [constructor|].
  cbn [canon] in H. destruct (is_dotdot e) eqn:E.
  - constructor; [|exact (IH H)].
    apply String.eqb_eq in E. subst e. reflexivity.
  - cbn [forallb] in H. apply andb_true_iff in H. destruct H as [He Hl].
    constructor; [exact (normal_elem_ok e He)|].
    exact (IH (normal_canon l Hl)).
Qed.

(** Normal elements are all written. *)
Lemma clean_fold_normal :
  forall (r : bool) (l out : list string),
    forallb normal_elem l = true ->
    fold_left (filepath.clean_step r) l out = (rev l ++ out)%list.
Proof.
  intros r l. induction l as [|e l IH]; intros out H; [reflexivity|].
  cbn [forallb] in H. apply andb_true_iff in H. destruct H as [He Hl].
  cbn [fold_left rev]. rewrite (IH _ Hl), <- app_assoc. cbn [app].
  f_equal. unfold normal_elem, elem_ok, nonempty in He.
  rewrite !andb_true_iff, !negb_true_iff in He.
  destruct He as [[[E0 _] E1] E2].
  unfold filepath.clean_step. rewrite E0, E1, E2. reflexivity.
Qed.

(** Without a root, a path in the form [Clean] writes is left as it is. *)
Lemma clean_fold_canon_id :
  forall (l out : list string),
    canon l = true ->
    forallb is_dotdot out = true ->
    fold_left (filepath.clean_step false) l out = (rev l ++ out)%list.
Proof.
  induction l as [|e l IH]; intros out H Hout; [reflexivity|].
  cbn [canon] in H. destruct (is_dotdot e) eqn:E.
  - apply String.eqb_eq in E. subst e.
    cbn [fold_left rev]. rewrite <- app_assoc. cbn [app].
    replace (filepath.clean_step false out filepath.dotdot)
      with (filepath.dotdot :: out).
    + apply IH; [exact H|]. cbn [forallb]. rewrite Hout. reflexivity.
    + destruct out as [|top rest]; [reflexivity|].
      cbn [forallb] in Hout. apply andb_true_iff in Hout.
      destruct Hout as [Ht _]. unfold is_dotdot in Ht.
      unfold filepath.clean_step. cbn [String.eqb]. cbn. rewrite Ht. reflexivity.
  - apply clean_fold_normal. exact H.
Qed.

Lemma Split_no_sep_id :
  forall e : string, no_sep e = true -> Split e Separator = [e].
Proof.
  induction e as [|c e IH]; intros H; [reflexivity|].
  simpl in H. apply andb_true_iff in H. destruct H as [Hc He].
  simpl. rewrite (IH He).
  destruct (Ascii.eqb c Separator); [discriminate|reflexivity].
Qed.

Lemma Split_concat_elems :
  forall l : list string,
    Forall (fun e => elem_ok e = true) l ->
    flat_map (fun x => Split x Separator) l = l.
Proof.
  induction l as [|e l IH]; intros H; [reflexivity|].
  inversion H as [|? ? He Hl]; subst.
  unfold elem_ok in He. apply andb_true_iff in He. destruct He as [_ He].
  cbn [flat_map]. rewrite (Split_no_sep_id e He), (IH Hl). reflexivity.
Qed.

(** [Join] of such elements is their plain join by the separator. *)
Lemma Join_canon :
  forall l : list string,
    canon l = true -> filepath.Join l = JoinStrings l "/".
Proof.
  intros [|e l] H; [reflexivity|].
  pose proof (canon_elem_ok _ H) as Hok.
  destruct (concat_elems_shape l e Hok) as (Hr & _ & _ & _).
  assert (He : String.eqb e "" = false).
  { inversion Hok as [|? ? He _]; subst. destruct e; [discriminate|reflexivity]. }
  cbn [filepath.Join]. rewrite He.
  unfold filepath.Clean, JoinStrings, filepath.clean_elems.
  rewrite Hr, Split_concat, (Split_concat_elems _ Hok).
  rewrite (clean_fold_canon_id _ [] H eq_refl), app_nil_r, rev_involutive.
  reflexivity.
Qed.

Lemma forallb_firstn :
  forall (f : string -> bool) (k : nat) (l : list string),
    forallb f l = true -> forallb f (firstn k l) = true.
Proof.
  intros f k. induction k as [|k IH]; intros [|e l] H; try reflexivity.
  cbn [forallb firstn] in *. apply andb_true_iff in H. destruct H as [He Hl].
  rewrite He, (IH _ Hl). reflexivity.
Qed.

Lemma canon_firstn :
  forall (k : nat) (l : list string),
    canon l = true -> canon (firstn k l) = true.
Proof.
  induction k as [|k IH]; intros [|e l] H; try reflexivity.
  cbn [firstn canon] in *. destruct (is_dotdot e); [exact (IH _ H)|].
  exact (forallb_firstn _ (S k) (e :: l) H).
Qed.

Lemma canon_tail :
  forall (e : string) (l : list string), canon (e :: l) = true -> canon l = true.
Proof.
  intros e l H. cbn [canon] in H. destruct (is_dotdot e); [exact H|].
  cbn [forallb] in H. apply andb_true_iff in H. exact (normal_canon _ (proj2 H)).
Qed.

Lemma canon_skipn :
  forall (j : nat) (l : list string),
    canon l = true -> canon (skipn j l) = true.
Proof.
  induction j as [|j IH]; intros [|e l] H; try reflexivity; [exact H|].
  cbn [skipn]. exact (IH _ (canon_tail _ _ H)).
Qed.

Lemma HasPrefix_sep :
  forall s : string, HasPrefix s "/" = filepath.rooted s.
Proof.
  intros [|c s]; [reflexivity|]. cbn. apply andb_true_r.
Qed.

(** The directory segments of a file: the empty string alone (the root),
    [.] alone (no directory), or the elements of the cleaned directory. *)
Lemma segments_shape :
  forall file : string,
    segments file = [""] \/ segments file = ["."] \/
    canon (segments file) = true.
Proof.
  intros file. unfold segments, filepath.Dir, filepath.Clean, TrimPrefix.
  set (p := filepath.upto_last_sep file).
  pose proof (clean_elems_canon (filepath.rooted p) p) as Hc.
  rewrite HasPrefix_sep.
  destruct (filepath.rooted p) eqn:R; cbn [canon_for] in Hc.
  - cbn [filepath.rooted]. rewrite Ascii.eqb_refl.
    cbn [String.length skipn_str].
    apply normal_canon in Hc.
    destruct (filepath.clean_elems true (Split p Separator)) as [|e l] eqn:El.
    + left. reflexivity.
    + right. right. unfold JoinStrings.
      rewrite Split_concat, (Split_concat_elems _ (canon_elem_ok _ Hc)).
      exact Hc.
  - destruct (filepath.clean_elems false (Split p Separator)) as [|e l] eqn:El.
    + right. left. reflexivity.
    + right. right. unfold JoinStrings.
      destruct (concat_elems_shape l e (canon_elem_ok _ Hc)) as (Hr & _).
      rewrite Hr, Split_concat, (Split_concat_elems _ (canon_elem_ok _ Hc)).
      exact Hc.
Qed.

(** On any part of the directory segments, [filepath.Join] is the plain
    join by the separator: the cleaning changes nothing there. *)
Lemma Join_segments_plain :
  forall (file : string) (j k : nat),
    filepath.Join (firstn k (skipn j (segments file))) =
    JoinStrings (firstn k (skipn j (segments file))) "/".
Proof.
  intros file j k.
  destruct (segments_shape file) as [H|[H|H]].
  - rewrite H. destruct j as [|[|j]], k as [|[|k]]; reflexivity.
  - rewrite H. destruct j as [|[|j]], k as [|[|k]]; reflexivity.
  - apply Join_canon, canon_firstn, canon_skipn, H.
Qed.

(** A slice with normalised begin below normalised end resolves to the
    segments from begin up to, not including, end, joined by the
    separator. *)
Lemma slice_Resolve_less_plain :
  forall (b e : Z) (dat : Data),
    let xs := segments (File dat) in
    let count := Z.of_nat (List.length xs) in
    let nb := normalize b count in
    let ne := normalize e count in
    nb < ne ->
    Resolve (slice b e) dat =
    Ok (JoinStrings (firstn (Z.to_nat (ne - nb)) (skipn (Z.to_nat nb) xs)) "/").
Proof.
  intros b e dat xs count nb ne H.
  rewrite (slice_Resolve_less b e dat H).
  rewrite Join_segments_plain. reflexivity.
Qed.

(** ** [Resolve] returns no error value *)

Lemma at_index_no_error :
  forall (xs : list string) (i : Z), no_error (at_index xs i).
Proof.
  intros xs i. unfold at_index.
  destruct (_ && _); [destruct (nth_error xs (Z.to_nat i))|]; exact I.
Qed.

Lemma fragment_Resolve_no_error :
  forall (name : string) (dat : Data), no_error (fragment_Resolve name dat).
Proof.
  intros name dat. unfold fragment_Resolve.
  repeat match goal with
         | |- no_error (if ?c then _ else _) => destruct c; [exact I|]
         end.
  destruct (Atoi name); [|exact I]. cbv zeta.
  destruct (_ <? _); [apply at_index_no_error|exact I].
Qed.

Lemma each_no_error :
  forall (f : Resolver -> result string) (rs : list Resolver),
    Forall (fun r => no_error (f r)) rs -> no_error (each f rs).
Proof.
  intros f rs H. induction H as [|r rs Hr _ IH]; [exact I|].
  cbn [each] in *. destruct (f r); [|contradiction|exact I].
  cbn [bind]. destruct (each f rs); [exact I|contradiction|exact I].
Qed.

(** [Resolve] has no error result: it returns a string or it panics. *)
Lemma Resolve_no_error :
  forall (r : Resolver) (dat : Data), no_error (Resolve r dat).
Proof.
  intros r dat. induction r as [|rs IH|s|i|b e|name|rs IH]
    using Resolver_tree_ind; cbn [Resolve].
  - exact I.
  - pose proof (each_no_error (fun r => Resolve r dat) rs IH) as H.
    destruct (each _ rs); [exact I|contradiction|exact I].
  - exact I.
  - unfold index_Resolve. destruct (_ <? _); [apply at_index_no_error|exact I].
  - unfold slice_Resolve. destruct (_ =? _); [apply at_index_no_error|].
    destruct (_ <? _); [|exact I].
    unfold sub_slice. destruct (_ && _); exact I.
  - apply fragment_Resolve_no_error.
  - generalize "". induction IH as [|r rs Hr _ IHrs]; intros buf; [exact I|].
    destruct (Resolve r dat); [|contradiction|exact I].
    cbn [bind]. apply IHrs.
Qed.

(** * Further properties of the parser and of the nodes *)

(** ** Strings, their slices and [IndexByte] *)

Lemma str_app_assoc :
  forall a b c : string, (a ++ b) ++ c = a ++ (b ++ c).
Proof.
  induction a as [|x a IH]; intros b c; simpl; [reflexivity|].
  rewrite IH. reflexivity.
Qed.

Lemma str_app_nil_r : forall a : string, a ++ "" = a.
Proof.
  induction a as [|x a IH]; simpl; [reflexivity|]. rewrite IH. reflexivity.
Qed.

Lemma len_app : forall a b : string, len (a ++ b) = len a + len b.
Proof.
  unfold len. induction a as [|x a IH]; intros b; [reflexivity|].
  cbn [append String.length]. rewrite !Nat2Z.inj_succ, IH. lia.
Qed.

Lemma len_nonneg : forall s : string, 0 <= len s.
Proof. intros s. unfold len. lia. Qed.

Lemma len_zero : forall s : string, len s = 0 -> s = "".
Proof. intros [|c s] H; [reflexivity|]. unfold len in H. simpl in H. lia. Qed.

Lemma skipn_str_app :
  forall a b : string, skipn_str (String.length a) (a ++ b) = b.
Proof. induction a as [|x a IH]; intros b; [reflexivity|]. simpl. apply IH. Qed.

Lemma firstn_str_app :
  forall a b : string, firstn_str (String.length a) (a ++ b) = a.
Proof.
  induction a as [|x a IH]; intros b; [reflexivity|]. simpl.
  rewrite IH. reflexivity.
Qed.

(** The slice of [a ++ b ++ c] between the ends of [a] and of [b] is [b]. *)
Lemma slice_str_mid :
  forall (a b c : string) (lo hi : Z),
    lo = len a -> hi = len a + len b ->
    slice_str (a ++ b ++ c) lo hi = Ok b.
Proof.
  intros a b c lo hi -> ->. unfold slice_str.
  rewrite !len_app.
  pose proof (len_nonneg a). pose proof (len_nonneg b). pose proof (len_nonneg c).
  replace ((0 <=? len a) && (len a <=? len a + len b) &&
           (len a + len b <=? len a + (len b + len c)))%bool with true
    by (symmetry; rewrite !andb_true_iff, !Z.leb_le; lia).
  replace (len a + len b - len a) with (len b) by lia.
  unfold len. rewrite !Nat2Z.id, skipn_str_app, firstn_str_app. reflexivity.
Qed.

Lemma slice_from_app :
  forall (a b : string) (lo : Z), lo = len a -> slice_from (a ++ b) lo = Ok b.
Proof.
  intros a b lo ->. unfold slice_from.
  rewrite <- (str_app_nil_r b) at 1.
  apply slice_str_mid; [reflexivity|]. rewrite !len_app. unfold len. simpl. lia.
Qed.

(** Every offset within a string cuts it in two. *)
Lemma str_split_at :
  forall (s : string) (k : Z),
    0 <= k <= len s -> exists a b, s = a ++ b /\ len a = k.
Proof.
  induction s as [|x s IH]; intros k Hk.
  - exists "", "". unfold len in *. simpl in *. split; [reflexivity|lia].
  - destruct (Z.eq_dec k 0) as [->|Hne].
    + exists "", (String x s). split; reflexivity.
    + destruct (IH (k - 1)) as (a & b & -> & Ha).
      { unfold len in *. cbn [String.length] in Hk. lia. }
      exists (String x a), b. split; [reflexivity|].
      unfold len in *. cbn [String.length]. lia.
Qed.

Lemma IndexByte_range :
  forall (s : string) (c : ascii), -1 <= IndexByte s c < len s.
Proof.
  unfold len. induction s as [|x s IH]; intros c; simpl; [lia|].
  destruct (Ascii.eqb x c); [lia|].
  specialize (IH c). destruct (IndexByte s c <? 0) eqn:E; [lia|].
  apply Z.ltb_ge in E. lia.
Qed.

Lemma IndexByte_lacks :
  forall (s : string) (c : ascii), lacks c s = true -> IndexByte s c = -1.
Proof.
  induction s as [|x s IH]; intros c H; [reflexivity|].
  simpl in *. apply andb_true_iff in H. destruct H as [Hx Hs].
  apply negb_true_iff in Hx. rewrite Hx, (IH c Hs). reflexivity.
Qed.

Lemma IndexByte_found :
  forall (a b : string) (c : ascii),
    lacks c a = true -> IndexByte (a ++ String c b) c = len a.
Proof.
  unfold len. induction a as [|x a IH]; intros b c H.
  - simpl. rewrite Ascii.eqb_refl. reflexivity.
  - simpl in H. apply andb_true_iff in H. destruct H as [Hx Ha].
    apply negb_true_iff in Hx. cbn [append IndexByte String.length].
    rewrite Hx, (IH b c Ha).
    replace (Z.of_nat (String.length a) <? 0) with false
      by (symmetry; apply Z.ltb_ge; lia).
    lia.
Qed.

(** Without a first [c] the string holds none; a first [c] at [k] splits
    it there. *)
Lemma IndexByte_none :
  forall (s : string) (c : ascii), IndexByte s c < 0 -> lacks c s = true.
Proof.
  induction s as [|x s IH]; intros c H; [reflexivity|].
  simpl in *. destruct (Ascii.eqb x c); [lia|].
  destruct (IndexByte s c <? 0) eqn:E.
  - apply Z.ltb_lt in E. rewrite (IH c E). reflexivity.
  - apply Z.ltb_ge in E. lia.
Qed.

Lemma IndexByte_split :
  forall (s : string) (c : ascii),
    0 <= IndexByte s c ->
    exists a b, s = a ++ String c b /\ lacks c a = true /\ len a = IndexByte s c.
Proof.
  induction s as [|x s IH]; intros c H; [simpl in H; lia|].
  simpl in *. destruct (Ascii.eqb x c) eqn:Ex.
  - apply Ascii.eqb_eq in Ex. subst x. exists "", s. repeat split.
  - destruct (IndexByte s c <? 0) eqn:E; [lia|]. apply Z.ltb_ge in E.
    destruct (IH c E) as (a & b & -> & Ha & Hl).
    exists (String x a), b. repeat split.
    + simpl. rewrite Ex, Ha. reflexivity.
    + unfold len in *. cbn [String.length]. lia.
Qed.

Lemma lacks_app :
  forall (c : ascii) (a b : string),
    lacks c (a ++ b) = (lacks c a && lacks c b)%bool.
Proof.
  induction a as [|x a IH]; intros b; [reflexivity|].
  simpl. rewrite IH, andb_assoc. reflexivity.
Qed.

Lemma no_sep_lacks : forall s : string, no_sep s = lacks Separator s.
Proof.
  induction s as [|x s IH]; [reflexivity|]. simpl. rewrite IH. reflexivity.
Qed.

(** ** One turn of the loop of [parse] *)

Lemma len_cons : forall (c : ascii) (s : string), len (String c s) = 1 + len s.
Proof. intros c s. unfold len. cbn [String.length]. lia. Qed.

(** A turn that meets a placeholder: [pre] is what the loop has passed,
    [lit] the text up to the opening brace, [name] the text up to the closing
    one.  The turn reports an empty placeholder when [name] is as long as
    [lit]; otherwise it stores [lit], if not empty, and the node of [name],
    and goes on after the closing brace. *)
Lemma parse_loop_placeholder :
  forall (f : nat) (pre lit name rest : string) (rs : list Resolver),
    lacks lcurly lit = true ->
    lacks rcurly name = true ->
    let str := pre ++ lit ++ String lcurly (name ++ String rcurly rest) in
    parse_loop (S f) str (len pre) rs =
    if len name =? len lit then Err ErrEmptyPlaceholder
    else
      r <- parseResolver name ;;
      parse_loop f str (len pre + len lit + len name + 2)
        ((if 0 <? len lit then rs ++ [literal lit] else rs) ++ [r])%list.
Proof.
  intros f pre lit name rest rs Hlit Hname str.
  pose proof (len_nonneg pre) as Hp. pose proof (len_nonneg lit) as Hl.
  pose proof (len_nonneg name) as Hn. pose proof (len_nonneg rest) as Hr.
  assert (Hlen : len str = len pre + len lit + 1 + len name + 1 + len rest).
  { subst str. rewrite !len_app, len_cons, len_app, len_cons. lia. }
  assert (E0 : slice_from str (len pre) =
               Ok (lit ++ String lcurly (name ++ String rcurly rest))).
  { subst str. apply slice_from_app. reflexivity. }
  assert (E1 : slice_from str (len pre + len lit) =
               Ok (String lcurly (name ++ String rcurly rest))).
  { subst str. rewrite <- str_app_assoc. apply slice_from_app.
    rewrite len_app. reflexivity. }
  assert (E2 : IndexByte (String lcurly (name ++ String rcurly rest)) rcurly =
               len name + 1).
  { cbn [IndexByte]. change (Ascii.eqb lcurly rcurly) with false. cbv iota.
    rewrite (IndexByte_found name rest rcurly Hname).
    replace (len name <? 0) with false by (symmetry; apply Z.ltb_ge; lia).
    reflexivity. }
  assert (E3 : slice_str str (len pre) (len pre + len lit) = Ok lit).
  { subst str. apply slice_str_mid; reflexivity. }
  assert (E4 : slice_str str (len pre + (len lit + 1))
                 (len pre + (len lit + 1) + (len name + 1) - 1) = Ok name).
  { replace str
      with ((pre ++ lit ++ String lcurly "") ++ name ++ String rcurly rest).
    - apply slice_str_mid; rewrite !len_app, len_cons; unfold len; simpl; lia.
    - subst str. rewrite !str_app_assoc. reflexivity. }
  cbn [parse_loop].
  replace (len pre <? len str) with true by (symmetry; apply Z.ltb_lt; lia).
  rewrite E0. cbn [bind]. rewrite (IndexByte_found lit _ lcurly Hlit).
  replace (len lit <? 0) with false by (symmetry; apply Z.ltb_ge; lia).
  rewrite E1. cbn [bind]. rewrite E2.
  replace (len name + 1 <? 0) with false by (symmetry; apply Z.ltb_ge; lia).
  replace (len name + 1 - len lit =? 1) with (len name =? len lit)
    by (destruct (len name =? len lit) eqn:E;
        [apply Z.eqb_eq in E|apply Z.eqb_neq in E]; symmetry;
        [apply Z.eqb_eq|apply Z.eqb_neq]; lia).
  destruct (len name =? len lit); [reflexivity|].
  rewrite E3. cbn [bind]. rewrite E4. cbn [bind].
  destruct (parseResolver name) as [r| |]; cbn [bind]; try reflexivity.
  f_equal. lia.
Qed.

(** A turn that meets an opening brace with no closing brace after it. *)
Lemma parse_loop_missing_brace :
  forall (f : nat) (pre lit tail : string) (rs : list Resolver),
    lacks lcurly lit = true ->
    lacks rcurly tail = true ->
    parse_loop (S f) (pre ++ lit ++ String lcurly tail) (len pre) rs =
    Err ErrMissingBrace.
Proof.
  intros f pre lit tail rs Hlit Htail.
  set (str := pre ++ lit ++ String lcurly tail).
  pose proof (len_nonneg pre) as Hp. pose proof (len_nonneg lit) as Hl.
  pose proof (len_nonneg tail) as Ht.
  assert (Hlen : len str = len pre + len lit + 1 + len tail).
  { subst str. rewrite !len_app, len_cons. lia. }
  assert (E0 : slice_from str (len pre) = Ok (lit ++ String lcurly tail)).
  { subst str. apply slice_from_app. reflexivity. }
  assert (E1 : slice_from str (len pre + len lit) = Ok (String lcurly tail)).
  { subst str. rewrite <- str_app_assoc. apply slice_from_app.
    rewrite len_app. reflexivity. }
  cbn [parse_loop].
  replace (len pre <? len str) with true by (symmetry; apply Z.ltb_lt; lia).
  rewrite E0. cbn [bind]. rewrite (IndexByte_found lit _ lcurly Hlit).
  replace (len lit <? 0) with false by (symmetry; apply Z.ltb_ge; lia).
  rewrite E1. cbn [bind].
  rewrite (IndexByte_lacks (String lcurly tail) rcurly)
    by (cbn [lacks]; rewrite Htail; reflexivity).
  reflexivity.
Qed.

(** The loop is left where no opening brace follows. *)
Lemma parse_loop_exit :
  forall (f : nat) (pre tail : string) (rs : list Resolver),
    lacks lcurly tail = true ->
    parse_loop f (pre ++ tail) (len pre) rs = Ok (len pre, rs).
Proof.
  intros [|f] pre tail rs H; [reflexivity|]. cbn [parse_loop].
  destruct (len pre <? len (pre ++ tail)); [|reflexivity].
  rewrite (slice_from_app pre tail) by reflexivity. cbn [bind].
  rewrite (IndexByte_lacks tail lcurly H). reflexivity.
Qed.

(** ** [parse] on a component *)

Lemma literal_node_spec :
  forall (s : string) (rs : list Resolver),
    (if 0 <? len s then rs ++ [literal s] else rs)%list =
    (rs ++ literal_node s)%list.
Proof.
  intros s rs. unfold literal_node.
  destruct (0 <? len s); [reflexivity|]. rewrite app_nil_r. reflexivity.
Qed.

(** The loop gets through placeholders that are [token_ok], one turn
    each, and stores their nodes. *)
Lemma parse_loop_tokens :
  forall (toks : list token) (f : nat) (pre tail : string) (rs : list Resolver),
    Forall token_ok toks ->
    parse_loop (List.length toks + f) (pre ++ tokens_text toks ++ tail)
               (len pre) rs =
    parse_loop f (pre ++ tokens_text toks ++ tail)
               (len pre + len (tokens_text toks)) (rs ++ token_nodes toks)%list.
Proof.
  induction toks as [|[[lit name] r] toks IH]; intros f pre tail rs H.
  - cbn [tokens_text List.length token_nodes flat_map Nat.add].
    rewrite app_nil_r. change (len "") with 0. rewrite Z.add_0_r. reflexivity.
  - inversion H as [|? ? Ht Htoks]; subst.
    destruct Ht as (Hlit & Hname & Hne & Hr).
    cbn [tokens_text List.length Nat.add].
    replace ((lit ++ String lcurly (name ++ String rcurly (tokens_text toks)))
             ++ tail)
      with (lit ++ String lcurly (name ++ String rcurly (tokens_text toks ++ tail)))
      by (rewrite !str_app_assoc; cbn [append]; rewrite str_app_assoc;
          reflexivity).
    rewrite (parse_loop_placeholder _ pre lit name _ rs Hlit Hname).
    replace (len name =? len lit) with false
      by (symmetry; apply Z.eqb_neq; exact Hne).
    rewrite Hr. cbn [bind]. rewrite literal_node_spec.
    set (pre' := pre ++ lit ++ String lcurly (name ++ String rcurly "")).
    assert (Epre : pre ++ lit ++
                   String lcurly (name ++ String rcurly (tokens_text toks ++ tail))
                   = pre' ++ tokens_text toks ++ tail).
    { subst pre'. rewrite !str_app_assoc. cbn [append].
      rewrite str_app_assoc. reflexivity. }
    assert (Elen : len pre' = len pre + len lit + len name + 2).
    { subst pre'. rewrite !len_app, len_cons, len_app, len_cons.
      change (len "") with 0. lia. }
    rewrite Epre, <- Elen, (IH f pre' tail _ Htoks).
    f_equal.
    + rewrite Elen, !len_app, len_cons, len_app, len_cons. lia.
    + cbn [token_nodes flat_map]. rewrite <- !app_assoc. reflexivity.
Qed.

Lemma tokens_text_length :
  forall toks : list token,
    (List.length toks <= String.length (tokens_text toks))%nat.
Proof.
  induction toks as [|[[lit name] r] toks IH]; [apply Nat.le_refl|].
  cbn [tokens_text List.length].
  assert (H : forall a b : string,
             String.length (a ++ b) = (String.length a + String.length b)%nat).
  { induction a; intros b; simpl; [reflexivity|]. rewrite IHa. reflexivity. }
  rewrite H. cbn [String.length]. rewrite H. cbn [String.length]. lia.
Qed.

(** [parse] starts the loop with fuel for every placeholder. *)
Lemma parse_tokens_start :
  forall (toks : list token) (tail : string),
    Forall token_ok toks ->
    let str := tokens_text toks ++ tail in
    parse_loop (S (String.length str)) str 0 [] =
    parse_loop (S (String.length str)) str (len (tokens_text toks))
               (token_nodes toks).
Proof.
  intros toks tail H str.
  assert (Hlen : (List.length toks <= String.length str)%nat).
  { subst str. pose proof (tokens_text_length toks) as Hl.
    pose proof (len_app (tokens_text toks) tail) as Ha. unfold len in Ha. lia. }
  rewrite (parse_loop_fuel (S (String.length str))
             (List.length toks + S (String.length str)) str 0 [])
    by (unfold len; lia).
  pose proof (parse_loop_tokens toks (S (String.length str)) "" tail [] H) as E.
  cbn [append app] in E. change (len "") with 0 in E. rewrite Z.add_0_l in E.
  exact E.
Qed.

(** X1: a component made of placeholders that are [token_ok], each after
    its literal text, and of a last stretch of text without opening brace,
    parses to the nodes of the literal texts that are not empty and of the
    placeholders, in order: the node itself when there is one, a compound
    node otherwise. *)
Theorem parse_placeholders (toks : list token) (tail : string)
  (Htoks : Forall token_ok toks) (Htail : lacks lcurly tail = true) :
  parse (tokens_text toks ++ tail) =
  Ok (one_or_compound (token_nodes toks ++ literal_node tail)).
Proof.
  unfold parse. rewrite (parse_tokens_start toks tail Htoks).
  rewrite (parse_loop_exit _ (tokens_text toks) tail _ Htail). cbn [bind].
  rewrite (slice_from_app (tokens_text toks) tail) by reflexivity. cbn [bind].
  rewrite literal_node_spec.
  destruct (token_nodes toks ++ literal_node tail)%list as [|r [|r' rs]];
    reflexivity.
Qed.

Lemma parse_placeholders_witness :
  Forall token_ok [("v", "year", fragment "year"); ("-", "0:2", slice 0 2)] /\
  parse "v{year}-{0:2}.dat" =
  Ok (compound [literal "v"; fragment "year"; literal "-"; slice 0 2;
                literal ".dat"]).
Proof.
  assert (H : Forall token_ok
                [("v", "year", fragment "year"); ("-", "0:2", slice 0 2)]).
  { repeat constructor; discriminate. }
  split; [exact H|].
  exact (parse_placeholders _ ".dat" H eq_refl).
Defined.

(** X2: an opening brace with no closing brace after it, behind any
    number of placeholders that are [token_ok], makes [parse] return the
    missing-brace error. *)
Theorem parse_unclosed_brace (toks : list token) (lit tail : string)
  (Htoks : Forall token_ok toks)
  (Hlit : lacks lcurly lit = true) (Htail : lacks rcurly tail = true) :
  parse (tokens_text toks ++ lit ++ String lcurly tail) = Err ErrMissingBrace.
Proof.
  unfold parse. rewrite (parse_tokens_start toks _ Htoks).
  rewrite (parse_loop_missing_brace _ (tokens_text toks) lit tail _ Hlit Htail).
  reflexivity.
Qed.

Lemma parse_unclosed_brace_witness :
  Forall token_ok [("", "year", fragment "year")] /\
  parse "{year}_{doy" = Err ErrMissingBrace.
Proof.
  assert (H : Forall token_ok [("", "year", fragment "year")]).
  { repeat constructor; discriminate. }
  split; [exact H|].
  exact (parse_unclosed_brace _ "_" "doy" H eq_refl eq_refl).
Defined.

(** X3: a placeholder whose name is as long as the literal text before it
    (since the last closing brace) makes [parse] return the
    empty-placeholder error, whatever the name: [end-start == 1] holds
    exactly then.  The empty placeholder at the start of a component is the
    case of length zero. *)
Theorem parse_same_length_rejected (toks : list token) (lit name rest : string)
  (Htoks : Forall token_ok toks)
  (Hlit : lacks lcurly lit = true) (Hname : lacks rcurly name = true)
  (Hlen : String.length name = String.length lit) :
  parse (tokens_text toks ++ lit ++ String lcurly (name ++ String rcurly rest)) =
  Err ErrEmptyPlaceholder.
Proof.
  unfold parse. rewrite (parse_tokens_start toks _ Htoks).
  rewrite (parse_loop_placeholder _ (tokens_text toks) lit name rest _ Hlit Hname).
  unfold len. rewrite Hlen, Z.eqb_refl. reflexivity.
Qed.

Lemma parse_same_length_rejected_witness :
  String.length "year" = String.length "data" /\
  parse "data{year}.txt" = Err ErrEmptyPlaceholder /\
  parse "{}" = Err ErrEmptyPlaceholder.
Proof.
  split; [reflexivity|]. split.
  - exact (parse_same_length_rejected [] "data" "year" ".txt"
             (Forall_nil _) eq_refl eq_refl eq_refl).
  - exact (parse_same_length_rejected [] "" "" ""
             (Forall_nil _) eq_refl eq_refl eq_refl).
Defined.

(** X4: when the name of a placeholder is not as long as the literal text
    before it, an error or a panic of [parseResolver] on that name is the
    result of [parse]; an empty name after literal text is such a case, with
    the panic of [str[0]]. *)
Theorem parse_placeholder_failure (toks : list token) (lit name rest : string)
  (Htoks : Forall token_ok toks)
  (Hlit : lacks lcurly lit = true) (Hname : lacks rcurly name = true)
  (Hlen : String.length name <> String.length lit) :
  let str :=
    tokens_text toks ++ lit ++ String lcurly (name ++ String rcurly rest) in
  match parseResolver name with
  | Ok _ => True
  | Err e => parse str = Err e
  | Panic p => parse str = Panic p
  end /\
  (name = "" -> parse str = Panic (IndexOutOfRange 0 0)).
Proof.
  intros str.
  assert (E : parse str =
              st <- (r <- parseResolver name ;;
                     parse_loop (String.length str) str
                       (len (tokens_text toks) + len lit + len name + 2)
                       ((token_nodes toks ++ literal_node lit) ++ [r])%list) ;;
              (let '(offset, rs) := st in
               tail <- slice_from str offset ;;
               let rs := if 0 <? len tail then (rs ++ [literal tail])%list else rs in
               match rs with
               | [r] => Ok r
               | _ => Ok (compound rs)
               end)).
  { unfold parse. subst str. rewrite (parse_tokens_start toks _ Htoks).
    rewrite (parse_loop_placeholder _ (tokens_text toks) lit name rest _ Hlit Hname).
    replace (len name =? len lit) with false
      by (symmetry; apply Z.eqb_neq; unfold len; lia).
    rewrite literal_node_spec. reflexivity. }
  split.
  - destruct (parseResolver name) as [r|e|p] eqn:Er; [exact I| |];
      rewrite E; reflexivity.
  - intros ->. rewrite E. reflexivity.
Qed.

Lemma parse_placeholder_failure_witness :
  String.length "1x" <> String.length "a" /\
  parse "a{1x}" = Err (ErrAtoi "1x") /\
  parse "ab{}cd" = Panic (IndexOutOfRange 0 0).
Proof.
  split; [discriminate|]. split.
  - exact (proj1 (parse_placeholder_failure [] "a" "1x" ""
                    (Forall_nil _) eq_refl eq_refl ltac:(discriminate))).
  - exact (proj2 (parse_placeholder_failure [] "ab" "" "cd"
                    (Forall_nil _) eq_refl eq_refl ltac:(discriminate)) eq_refl).
Defined.

(** ** [parseResolver] *)

Lemma slice_to_app :
  forall (a b : string) (hi : Z), hi = len a -> slice_to (a ++ b) hi = Ok a.
Proof.
  intros a b hi ->. unfold slice_to.
  change (a ++ b) with ("" ++ a ++ b). apply slice_str_mid; reflexivity.
Qed.

(** A name with a first colon: the texts before and after it are the two
    bounds. *)
Lemma parseResolver_slice :
  forall a b : string,
    numeric_start (a ++ String colon b) = true ->
    lacks colon a = true ->
    parseResolver (a ++ String colon b) =
    match Atoi a with
    | None => Err (ErrAtoi a)
    | Some x =>
        match Atoi b with
        | None => Err (ErrAtoi b)
        | Some y => Ok (slice x y)
        end
    end.
Proof.
  intros a b Hnum Ha. unfold parseResolver.
  destruct (a ++ String colon b) as [|c s] eqn:E; [discriminate Hnum|].
  change (at_byte (String c s) 0) with (Ok (A := ascii) c). cbn [bind].
  cbn [numeric_start] in Hnum. rewrite Hnum. cbn [negb].
  rewrite <- E. rewrite (IndexByte_found a b colon Ha).
  pose proof (len_nonneg a) as Hl.
  replace (len a <? 0) with false by (symmetry; apply Z.ltb_ge; lia).
  rewrite (slice_to_app a (String colon b)) by reflexivity. cbn [bind].
  destruct (Atoi a) as [x|]; [|reflexivity].
  replace (a ++ String colon b) with ((a ++ String colon "") ++ b)
    by (rewrite str_app_assoc; reflexivity).
  rewrite (slice_from_app (a ++ String colon "") b)
    by (rewrite len_app; reflexivity).
  cbn [bind]. reflexivity.
Qed.

(** A name without colon is one number. *)
Lemma parseResolver_index :
  forall str : string,
    numeric_start str = true ->
    lacks colon str = true ->
    parseResolver str =
    match Atoi str with
    | Some i => Ok (index i)
    | None => Err (ErrAtoi str)
    end.
Proof.
  intros str Hnum Hc. unfold parseResolver.
  destruct str as [|c s]; [discriminate Hnum|].
  change (at_byte (String c s) 0) with (Ok (A := ascii) c). cbn [bind].
  cbn [numeric_start] in Hnum. rewrite Hnum. cbn [negb].
  rewrite (IndexByte_lacks _ colon Hc). reflexivity.
Qed.

Lemma parseResolver_fragment :
  forall str : string,
    str <> "" -> numeric_start str = false ->
    parseResolver str = Ok (fragment str).
Proof.
  intros [|c s] Hne Hnum; [contradiction|]. unfold parseResolver.
  change (at_byte (String c s) 0) with (Ok (A := ascii) c). cbn [bind].
  cbn [numeric_start] in Hnum. rewrite Hnum. reflexivity.
Qed.

(** X5: on a name that is not empty [parseResolver] does not panic, and
    it returns one of four things: a fragment with that very name, when the
    name does not start with a digit or a minus sign; otherwise the index
    [Atoi] reads from the name, the slice of the two numbers [Atoi] reads
    around the first colon, or the error of a text [Atoi] refuses.  The
    numbers are within the range of [int]. *)
Theorem parseResolver_kinds (str : string) (Hne : str <> "") :
  match parseResolver str with
  | Ok (fragment name) => name = str /\ numeric_start str = false
  | Ok (index i) =>
      numeric_start str = true /\ Atoi str = Some i /\ Int.in_range i = true
  | Ok (slice b e) =>
      numeric_start str = true /\
      Int.in_range b = true /\ Int.in_range e = true /\
      exists tb te, str = tb ++ String colon te /\ lacks colon tb = true /\
                    Atoi tb = Some b /\ Atoi te = Some e
  | Ok _ => False
  | Err e => numeric_start str = true /\ exists s, e = ErrAtoi s /\ Atoi s = None
  | Panic _ => False
  end.
Proof.
  destruct (numeric_start str) eqn:Hnum.
  - destruct (IndexByte str colon <? 0) eqn:Ex.
    + apply Z.ltb_lt in Ex. pose proof (IndexByte_none _ _ Ex) as Hc.
      rewrite (parseResolver_index str Hnum Hc).
      destruct (Atoi str) as [i|] eqn:Ea.
      * repeat split. exact (Atoi_in_range _ _ Ea).
      * split; [reflexivity|]. exists str. split; [reflexivity|exact Ea].
    + apply Z.ltb_ge in Ex.
      destruct (IndexByte_split _ _ Ex) as (a & b & -> & Ha & _).
      rewrite (parseResolver_slice a b Hnum Ha).
      destruct (Atoi a) as [x|] eqn:Ea.
      * destruct (Atoi b) as [y|] eqn:Eb.
        -- split; [reflexivity|]. split; [exact (Atoi_in_range _ _ Ea)|].
           split; [exact (Atoi_in_range _ _ Eb)|].
           exists a, b. repeat split; assumption.
        -- split; [reflexivity|]. exists b. split; [reflexivity|exact Eb].
      * split; [reflexivity|]. exists a. split; [reflexivity|exact Ea].
  - rewrite (parseResolver_fragment str Hne Hnum). split; reflexivity.
Qed.

Lemma parseResolver_kinds_witness :
  "-2:3" <> "" /\ parseResolver "-2:3" = Ok (slice (-2) 3) /\
  Int.in_range (-2) = true.
Proof.
  assert (Hne : "-2:3" <> "") by discriminate.
  pose proof (parseResolver_kinds "-2:3" Hne) as H.
  change (parseResolver "-2:3") with (Ok (slice (-2) 3)) in H.
  destruct H as (_ & Hb & _).
  split; [exact Hne|]. split; [reflexivity|exact Hb].
Defined.

(** ** The shape of parsed trees *)

Lemma literal_node_wf :
  forall s : string,
    lacks lcurly s = true -> lacks Separator s = true ->
    forallb leaf_wf (literal_node s) = true.
Proof.
  intros s Hc Hs. unfold literal_node.
  destruct (0 <? len s) eqn:E; [|reflexivity].
  cbn [forallb leaf_wf]. rewrite Hc, Hs.
  destruct s; [discriminate E|reflexivity].
Qed.

Lemma parseResolver_leaf_wf :
  forall (name : string) (r : Resolver),
    lacks rcurly name = true -> lacks Separator name = true ->
    parseResolver name = Ok r -> leaf_wf r = true.
Proof.
  intros name r Hc Hs Hr.
  assert (Hne : name <> "") by (intros ->; discriminate Hr).
  pose proof (parseResolver_kinds name Hne) as H. rewrite Hr in H.
  destruct r as [|rs|s|i|b e|n|rs]; try contradiction; cbn [leaf_wf].
  - destruct H as (_ & _ & Hi). exact Hi.
  - destruct H as (_ & Hb & He & _). rewrite Hb, He. reflexivity.
  - destruct H as (-> & Hnum). rewrite Hnum, Hc, Hs.
    destruct name; [contradiction|reflexivity].
Qed.

(** The loop keeps to leaves, and leaves its offset where no opening
    brace follows. *)
Lemma parse_loop_wf :
  forall (f : nat) (str : string) (offset : Z) (rs : list Resolver)
         (offset' : Z) (rs' : list Resolver),
    lacks Separator str = true ->
    0 <= offset <= len str ->
    len str - offset < Z.of_nat f ->
    forallb leaf_wf rs = true ->
    parse_loop f str offset rs = Ok (offset', rs') ->
    forallb leaf_wf rs' = true /\
    exists pre tail, str = pre ++ tail /\ len pre = offset' /\
                     lacks lcurly tail = true.
Proof.
  induction f as [|f IH]; intros str offset rs offset' rs' Hsep Hoff Hfuel Hrs H.
  - simpl in Hfuel. lia.
  - destruct (str_split_at str offset Hoff) as (pre & t & -> & Hpre).
    subst offset.
    destruct (IndexByte t lcurly <? 0) eqn:Et.
    + apply Z.ltb_lt in Et. apply IndexByte_none in Et.
      rewrite (parse_loop_exit _ pre t rs Et) in H. injection H as <- <-.
      split; [exact Hrs|]. exists pre, t. repeat split. exact Et.
    + apply Z.ltb_ge in Et.
      destruct (IndexByte_split _ _ Et) as (lit & t2 & -> & Hlit & _).
      destruct (IndexByte t2 rcurly <? 0) eqn:E2.
      * apply Z.ltb_lt in E2. apply IndexByte_none in E2.
        rewrite (parse_loop_missing_brace _ pre lit t2 rs Hlit E2) in H.
        discriminate H.
      * apply Z.ltb_ge in E2.
        destruct (IndexByte_split _ _ E2) as (name & rest & -> & Hname & _).
        rewrite (parse_loop_placeholder _ pre lit name rest rs Hlit Hname) in H.
        destruct (len name =? len lit); [discriminate H|].
        destruct (parseResolver name) as [r| |] eqn:Er; try discriminate H.
        cbn [bind] in H. rewrite literal_node_spec in H.
        rewrite !lacks_app in Hsep. cbn [lacks] in Hsep.
        rewrite lacks_app in Hsep. cbn [lacks] in Hsep.
        rewrite !andb_true_iff in Hsep.
        destruct Hsep as (Hs_pre & Hs_lit & _ & Hs_name & _ & Hs_rest).
        pose proof (len_nonneg pre). pose proof (len_nonneg lit).
        pose proof (len_nonneg name). pose proof (len_nonneg rest).
        assert (Hlen : len (pre ++ lit ++
                            String lcurly (name ++ String rcurly rest)) =
                       len pre + len lit + len name + 2 + len rest).
        { rewrite !len_app, len_cons, len_app, len_cons. lia. }
        apply (IH _ _ _ _ _) in H.
        -- exact H.
        -- rewrite !lacks_app. cbn [lacks]. rewrite lacks_app. cbn [lacks].
           rewrite Hs_pre, Hs_lit, Hs_name, Hs_rest. reflexivity.
        -- rewrite Hlen. lia.
        -- rewrite Hlen. rewrite Hlen in Hfuel. lia.
        -- rewrite !forallb_app, Hrs, (literal_node_wf lit Hlit Hs_lit).
           cbn [forallb].
           rewrite (parseResolver_leaf_wf name r Hname Hs_name Er). reflexivity.
Qed.

Lemma parse_wf :
  forall (str : string) (r : Resolver),
    lacks Separator str = true -> parse str = Ok r -> component_wf r = true.
Proof.
  intros str r Hsep H. unfold parse in H.
  destruct (parse_loop (S (String.length str)) str 0 []) as [[o rs]| |] eqn:El;
    try discriminate H.
  cbn [bind] in H.
  destruct (parse_loop_wf (S (String.length str)) str 0 [] o rs Hsep) as (Hrs & pre & tail & -> & <- & Ht);
    [pose proof (len_nonneg str); lia|unfold len; lia|reflexivity|exact El|].
  rewrite (slice_from_app pre tail) in H by reflexivity. cbn [bind] in H.
  rewrite literal_node_spec in H.
  rewrite lacks_app in Hsep. apply andb_true_iff in Hsep.
  assert (Hall : forallb leaf_wf (rs ++ literal_node tail) = true).
  { rewrite forallb_app, Hrs. apply literal_node_wf; [exact Ht|apply Hsep]. }
  destruct (rs ++ literal_node tail)%list as [|r1 [|r2 l]].
  - injection H as <-. reflexivity.
  - injection H as <-. cbn [forallb] in Hall. rewrite andb_true_r in Hall.
    destruct r1; try discriminate Hall; exact Hall.
  - injection H as <-. cbn [component_wf]. rewrite Hall. reflexivity.
Qed.

Lemma each_Ok_Forall2 :
  forall (A B : Type) (f : A -> result B) (l : list A) (ys : list B),
    each f l = Ok ys -> Forall2 (fun x y => f x = Ok y) l ys.
Proof.
  intros A B f. induction l as [|x l IH]; intros ys H.
  - injection H as <-. constructor.
  - cbn [each] in H. destruct (f x) as [y| |] eqn:Ex; try discriminate H.
    cbn [bind] in H. fold (each f l) in H.
    destruct (each f l) as [ys'| |] eqn:El; try discriminate H.
    injection H as <-. constructor; [exact Ex|apply IH; reflexivity].
Qed.

(** X6: the tree of a template that parses is the empty node, for the
    empty template, or a path node with one child for each component
    between separators; a child is a leaf or a compound node of leaves, never
    of one leaf alone; literals are not empty and hold no opening brace,
    fragment names are not empty, do not start with a digit or a minus sign
    and hold no closing brace, neither holds a separator, and every number
    is within the range of [int]. *)
Theorem ParseResolver_wf (str : string) (r : Resolver)
  (H : ParseResolver str = Ok r) :
  tree_wf r = true /\
  (str = "" -> r = empty) /\
  (str <> "" ->
   exists rs, r = path rs /\
              List.length rs = List.length (Split (Trim str Separator) Separator)).
Proof.
  unfold ParseResolver in H. destruct (String.eqb str "") eqn:E.
  - apply String.eqb_eq in E. injection H as <-.
    repeat split. intros Hne. contradiction.
  - apply String.eqb_neq in E.
    destruct (each parse (Split (Trim str Separator) Separator)) as [rs| |] eqn:El;
      try discriminate H.
    injection H as <-. apply each_Ok_Forall2 in El.
    pose proof (Split_no_sep (Trim str Separator)) as Hparts.
    pose proof (Split_not_nil (Trim str Separator) Separator) as Hnn.
    assert (Hlen : List.length rs =
                   List.length (Split (Trim str Separator) Separator))
      by (symmetry; exact (Forall2_length El)).
    split; [|split; [intros; contradiction|intros _; exists rs; split;
                                            [reflexivity|exact Hlen]]].
    cbn [tree_wf]. apply andb_true_iff. split.
    + destruct rs; [|reflexivity].
      destruct (Split (Trim str Separator) Separator);
        [contradiction|discriminate Hlen].
    + clear Hlen Hnn. induction El as [|p x ps xs Hp _ IH]; [reflexivity|].
      inversion Hparts as [|? ? Hps Hrest]; subst.
      cbn [forallb]. rewrite (IH Hrest), andb_true_r.
      apply (parse_wf p x); [rewrite <- no_sep_lacks; exact Hps|exact Hp].
Qed.

Lemma ParseResolver_wf_witness :
  ParseResolver "/data/{year}/ver{0}-{run}/" =
  Ok (path [literal "data"; fragment "year";
            compound [literal "ver"; index 0; literal "-"; fragment "run"]]) /\
  tree_wf (path [literal "data"; fragment "year";
                 compound [literal "ver"; index 0; literal "-"; fragment "run"]])
  = true.
Proof.
  assert (H : ParseResolver "/data/{year}/ver{0}-{run}/" =
              Ok (path [literal "data"; fragment "year";
                        compound [literal "ver"; index 0; literal "-";
                                  fragment "run"]])) by reflexivity.
  split; [exact H|]. exact (proj1 (ParseResolver_wf _ _ H)).
Defined.

(** ** [ParseResolver] on the components of a template *)

Lemma each_first_failure :
  forall (A B : Type) (f : A -> result B) (pre : list A) (x : A) (post : list A),
    Forall (fun a => exists b, f a = Ok b) pre ->
    each f (pre ++ x :: post) =
    match f x with
    | Ok y => ys <- each f pre ;; zs <- each f post ;; Ok (ys ++ y :: zs)%list
    | Err e => Err e
    | Panic p => Panic p
    end.
Proof.
  intros A B f pre x post H. induction H as [|a pre [b Hb] _ IH].
  - cbn [app each bind]. fold (each f post).
    destruct (f x); cbn [bind]; [|reflexivity|reflexivity].
    destruct (each f post); reflexivity.
  - cbn [app each]. fold (each f (pre ++ x :: post)). fold (each f pre).
    rewrite Hb, IH. cbn [bind].
    destruct (f x); cbn [bind]; [|reflexivity|reflexivity].
    destruct (each f pre); cbn [bind]; [|reflexivity|reflexivity].
    destruct (each f post); reflexivity.
Qed.

(** X7: when the components before a component all parse and that one
    does not, [ParseResolver] returns its error, or panics with its panic:
    no tree is returned for the components that parsed. *)
Theorem ParseResolver_first_failure (str : string) (pre : list string)
  (p : string) (post : list string)
  (Hne : str <> "")
  (Hparts : Split (Trim str Separator) Separator = (pre ++ p :: post)%list)
  (Hpre : Forall (fun q => exists r, parse q = Ok r) pre) :
  match parse p with
  | Ok _ => True
  | Err e => ParseResolver str = Err e
  | Panic x => ParseResolver str = Panic x
  end.
Proof.
  unfold ParseResolver.
  replace (String.eqb str "") with false
    by (symmetry; apply String.eqb_neq; exact Hne).
  rewrite Hparts, (each_first_failure _ _ parse pre p post Hpre).
  destruct (parse p); [exact I|reflexivity|reflexivity].
Qed.

Lemma ParseResolver_first_failure_witness :
  "{year}/{doy/{1x}" <> "" /\
  ParseResolver "{year}/{doy/{1x}" = Err ErrMissingBrace.
Proof.
  assert (Hne : "{year}/{doy/{1x}" <> "") by discriminate.
  split; [exact Hne|].
  refine (ParseResolver_first_failure "{year}/{doy/{1x}" ["{year}"] "{doy"
            ["{1x}"] Hne eq_refl _).
  constructor; [|constructor]. exists (fragment "year"). reflexivity.
Defined.

(** *** Separators around a template *)

Lemma TrimRight_cons :
  forall (x : ascii) (s : string) (c : ascii),
    TrimRight (String x s) c = "" \/
    exists r, TrimRight (String x s) c = String x r.
Proof.
  intros x s c. cbn [TrimRight].
  destruct (TrimRight s c); [|right; eexists; reflexivity].
  destruct (Ascii.eqb x c); [left; reflexivity|right; eexists; reflexivity].
Qed.

Lemma TrimRight_idem :
  forall (s : string) (c : ascii), TrimRight (TrimRight s c) c = TrimRight s c.
Proof.
  induction s as [|x s IH]; intros c; [reflexivity|].
  cbn [TrimRight]. destruct (TrimRight s c) as [|y r] eqn:E.
  - destruct (Ascii.eqb x c) eqn:Ex; [reflexivity|].
    cbn [TrimRight]. rewrite Ex. reflexivity.
  - specialize (IH c). rewrite E in IH.
    change (TrimRight (String x (String y r)) c)
      with (match TrimRight (String y r) c with
            | "" => if Ascii.eqb x c then "" else String x ""
            | r' => String x r'
            end).
    rewrite IH. reflexivity.
Qed.

Lemma TrimLeft_head :
  forall (s : string) (c : ascii),
    TrimLeft s c = "" \/
    exists x r, TrimLeft s c = String x r /\ Ascii.eqb x c = false.
Proof.
  induction s as [|x s IH]; intros c; [left; reflexivity|].
  cbn [TrimLeft]. destruct (Ascii.eqb x c) eqn:E; [apply IH|].
  right. exists x, s. split; [reflexivity|exact E].
Qed.

(** A trimmed string is empty or starts with a byte that is not the one
    trimmed; trimming it again changes nothing. *)
Lemma Trim_head :
  forall (s : string) (c : ascii),
    Trim s c = "" \/ exists x r, Trim s c = String x r /\ Ascii.eqb x c = false.
Proof.
  intros s c. unfold Trim.
  destruct (TrimLeft_head s c) as [->|(x & r & -> & Hx)]; [left; reflexivity|].
  destruct (TrimRight_cons x r c) as [->|(r' & ->)]; [left; reflexivity|].
  right. exists x, r'. split; [reflexivity|exact Hx].
Qed.

Lemma Trim_idem :
  forall (s : string) (c : ascii), Trim (Trim s c) c = Trim s c.
Proof.
  intros s c. destruct (Trim_head s c) as [E|(x & r & E & Hx)].
  - rewrite E. reflexivity.
  - unfold Trim at 1. rewrite E. cbn [TrimLeft]. rewrite Hx.
    rewrite <- E. unfold Trim. apply TrimRight_idem.
Qed.

(** X8: separators at the start and at the end of a template are not
    read: a template parses as the template without them, unless nothing
    else is left. *)
Theorem ParseResolver_trim (str : string)
  (H : Trim str Separator <> "") :
  ParseResolver str = ParseResolver (Trim str Separator).
Proof.
  unfold ParseResolver. rewrite Trim_idem.
  replace (String.eqb (Trim str Separator) "") with false
    by (symmetry; apply String.eqb_neq; exact H).
  destruct str; [contradiction H; reflexivity|reflexivity].
Qed.

Lemma ParseResolver_trim_witness :
  Trim "//a/{year}/" Separator <> "" /\
  ParseResolver "//a/{year}/" = ParseResolver "a/{year}".
Proof.
  assert (H : Trim "//a/{year}/" Separator <> "") by discriminate.
  split; [exact H|]. exact (ParseResolver_trim "//a/{year}/" H).
Defined.

(** ** Templates of literal text *)

(** A component without opening brace is one literal, or nothing. *)
Lemma parse_literal :
  forall s : string,
    lacks lcurly s = true -> parse s = Ok (one_or_compound (literal_node s)).
Proof.
  intros s H. unfold parse.
  rewrite (parse_loop_exit _ "" s [] H). cbn [bind].
  rewrite (slice_from_app "" s) by reflexivity. cbn [bind].
  rewrite literal_node_spec. cbn [app].
  destruct (literal_node s) as [|r [|r' rs]]; reflexivity.
Qed.

Lemma Resolve_literal_node :
  forall (s : string) (dat : Data),
    Resolve (one_or_compound (literal_node s)) dat = Ok s.
Proof.
  intros s dat. unfold literal_node.
  destruct (0 <? len s) eqn:E; [reflexivity|].
  apply Z.ltb_ge in E. pose proof (len_nonneg s).
  rewrite (len_zero s) by lia. reflexivity.
Qed.

(** The pieces of a string, joined again by the separator, are the
    string. *)
Lemma Split_JoinStrings :
  forall s : string, JoinStrings (Split s Separator) "/" = s.
Proof.
  unfold JoinStrings. induction s as [|c s IH]; [reflexivity|].
  cbn [Split]. pose proof (Split_not_nil s Separator) as Hn.
  destruct (Ascii.eqb c Separator) eqn:E.
  - apply Ascii.eqb_eq in E. subst c.
    destruct (Split s Separator) as [|x xs]; [contradiction|].
    rewrite concat_cons2, IH. reflexivity.
  - destruct (Split s Separator) as [|x xs]; [contradiction|].
    destruct xs as [|y ys].
    + cbn [String.concat] in *. rewrite IH. reflexivity.
    + change (String.concat "/" (String c x :: y :: ys))
        with (String c (String.concat "/" (x :: y :: ys))).
      rewrite IH. reflexivity.
Qed.

Lemma Split_lacks :
  forall (c : ascii) (s : string),
    lacks c s = true -> Forall (fun p => lacks c p = true) (Split s Separator).
Proof.
  intros c. induction s as [|x s IH]; intros H.
  - constructor; [reflexivity|constructor].
  - cbn [lacks] in H. apply andb_true_iff in H. destruct H as [Hx Hs].
    specialize (IH Hs). cbn [Split].
    destruct (Ascii.eqb x Separator).
    + constructor; [reflexivity|exact IH].
    + destruct (Split s Separator) as [|p ps].
      * constructor; [cbn [lacks]; rewrite Hx; reflexivity|constructor].
      * inversion IH as [|? ? Hp Hps]; subst.
        constructor; [cbn [lacks]; rewrite Hx, Hp; reflexivity|exact Hps].
Qed.

Lemma lacks_TrimRight :
  forall (c k : ascii) (s : string),
    lacks c s = true -> lacks c (TrimRight s k) = true.
Proof.
  intros c k. induction s as [|x s IH]; intros H; [reflexivity|].
  cbn [lacks] in H. apply andb_true_iff in H. destruct H as [Hx Hs].
  cbn [TrimRight]. specialize (IH Hs).
  destruct (TrimRight s k).
  - destruct (Ascii.eqb x k); [reflexivity|]. cbn [lacks]. rewrite Hx. reflexivity.
  - cbn [lacks] in *. rewrite Hx, IH. reflexivity.
Qed.

Lemma lacks_TrimLeft :
  forall (c k : ascii) (s : string),
    lacks c s = true -> lacks c (TrimLeft s k) = true.
Proof.
  intros c k. induction s as [|x s IH]; intros H; [reflexivity|].
  cbn [TrimLeft]. destruct (Ascii.eqb x k); [|exact H].
  cbn [lacks] in H. apply andb_true_iff in H. apply IH, H.
Qed.

Lemma Split_head :
  forall (x : ascii) (s : string),
    Ascii.eqb x Separator = false ->
    exists p ps, Split (String x s) Separator = String x p :: ps.
Proof.
  intros x s H. cbn [Split]. rewrite H.
  destruct (Split s Separator) as [|p ps]; eexists; eexists; reflexivity.
Qed.

(** X9: a template without opening brace resolves, on every record, to
    the template without the separators around it, cleaned as a path. *)
Theorem literal_template_resolves (template : string) (dat : Data)
  (Hbrace : lacks lcurly template = true)
  (Hne : Trim template Separator <> "") :
  resolve_template template dat = Ok (filepath.Clean (Trim template Separator)).
Proof.
  unfold resolve_template, ParseResolver.
  destruct (String.eqb template "") eqn:E0;
    [apply String.eqb_eq in E0; subst template; contradiction Hne; reflexivity|].
  set (u := Trim template Separator) in *.
  assert (Hu : lacks lcurly u = true)
    by (apply lacks_TrimRight, lacks_TrimLeft, Hbrace).
  assert (Hparse : each parse (Split u Separator) =
                   Ok (map (fun p => one_or_compound (literal_node p))
                           (Split u Separator))).
  { apply each_Forall2. pose proof (Split_lacks lcurly u Hu) as Hl.
    induction Hl as [|p ps Hp _ IH]; [constructor|].
    cbn [map]. constructor; [exact (parse_literal p Hp)|exact IH]. }
  rewrite Hparse. cbn [bind Resolve].
  assert (Hres : each (fun r => Resolve r dat)
                   (map (fun p => one_or_compound (literal_node p))
                        (Split u Separator)) = Ok (Split u Separator)).
  { apply each_Forall2. generalize (Split u Separator).
    induction l as [|p ps IH]; [constructor|].
    cbn [map]. constructor; [apply Resolve_literal_node|exact IH]. }
  rewrite Hres. cbn [bind]. f_equal.
  destruct (Trim_head template Separator) as [E|(x & r & E & Hx)];
    [contradiction|].
  fold u in E. rewrite E.
  destruct (Split_head x r Hx) as (p & ps & Es).
  rewrite <- (Split_JoinStrings (String x r)) at 2.
  rewrite Es. reflexivity.
Qed.

Lemma literal_template_resolves_witness :
  Trim "/archive//raw/../data/" Separator <> "" /\
  resolve_template "/archive//raw/../data/" sample = Ok "archive/data".
Proof.
  assert (H : Trim "/archive//raw/../data/" Separator <> "") by discriminate.
  split; [exact H|].
  exact (literal_template_resolves "/archive//raw/../data/" sample eq_refl H).
Defined.

(** ** Resolving compound and path nodes *)

Lemma compound_write :
  forall (dat : Data) (rs : list Resolver) (outs : list string) (buf : string),
    Forall2 (fun r s => Resolve r dat = Ok s) rs outs ->
    (fix write (l : list Resolver) (buf : string) : result string :=
       match l with
       | [] => Ok buf
       | r :: l' => s <- Resolve r dat ;; write l' (buf ++ s)
       end) rs buf = Ok (buf ++ String.concat "" outs).
Proof.
  intros dat rs outs buf H. revert buf.
  induction H as [|r s rs outs Hr _ IH]; intros buf.
  - rewrite str_app_nil_r. reflexivity.
  - rewrite Hr. cbn [bind]. rewrite IH, str_app_assoc. f_equal. f_equal.
    destruct outs; [cbn; rewrite str_app_nil_r|]; reflexivity.
Qed.

(** X10: when its children resolve to [outs], a compound node resolves to
    the strings of [outs] put one after the other, with nothing between
    them. *)
Theorem compound_Resolve_concat (rs : list Resolver) (dat : Data)
  (outs : list string)
  (H : Forall2 (fun r s => Resolve r dat = Ok s) rs outs) :
  Resolve (compound rs) dat = Ok (String.concat "" outs).
Proof.
  cbn [Resolve]. rewrite (compound_write dat rs outs "" H). reflexivity.
Qed.

Lemma compound_Resolve_concat_witness :
  Forall2 (fun r s => Resolve r sample = Ok s)
          [fragment "year"; literal "_"; index 1] ["2024"; "_"; "b"] /\
  Resolve (compound [fragment "year"; literal "_"; index 1]) sample =
  Ok "2024_b".
Proof.
  assert (H : Forall2 (fun r s => Resolve r sample = Ok s)
                [fragment "year"; literal "_"; index 1] ["2024"; "_"; "b"])
    by (repeat constructor).
  split; [exact H|]. exact (compound_Resolve_concat _ sample _ H).
Defined.

Lemma compound_write_panic :
  forall (dat : Data) (pre : list Resolver) (r : Resolver)
         (post : list Resolver) (p : panic) (buf : string),
    Forall (fun x => exists s, Resolve x dat = Ok s) pre ->
    Resolve r dat = Panic p ->
    (fix write (l : list Resolver) (buf : string) : result string :=
       match l with
       | [] => Ok buf
       | r :: l' => s <- Resolve r dat ;; write l' (buf ++ s)
       end) (pre ++ r :: post)%list buf = Panic p.
Proof.
  intros dat pre r post p buf H Hr. revert buf.
  induction H as [|x pre [s Hx] _ IH]; intros buf.
  - cbn [app]. rewrite Hr. reflexivity.
  - cbn [app]. rewrite Hx. cbn [bind]. apply IH.
Qed.

(** X11: a path node and a compound node resolve their children in order
    and stop at the first that panics: with the children before it resolved,
    its panic is the panic of the node. *)
Theorem children_first_panic (pre : list Resolver) (r : Resolver)
  (post : list Resolver) (dat : Data) (p : panic)
  (Hpre : Forall (fun x => exists s, Resolve x dat = Ok s) pre)
  (Hr : Resolve r dat = Panic p) :
  Resolve (path (pre ++ r :: post)) dat = Panic p /\
  Resolve (compound (pre ++ r :: post)) dat = Panic p.
Proof.
  split.
  - cbn [Resolve].
    rewrite (each_first_failure _ _ (fun x => Resolve x dat) pre r post Hpre).
    rewrite Hr. reflexivity.
  - cbn [Resolve]. exact (compound_write_panic dat pre r post p "" Hpre Hr).
Qed.

Lemma children_first_panic_witness :
  Forall (fun x => exists s, Resolve x sample = Ok s) [literal "a"] /\
  Resolve (path [literal "a"; index (-1); index (-2)]) sample =
  Panic (IndexOutOfRange (-1) 3).
Proof.
  assert (H : Forall (fun x => exists s, Resolve x sample = Ok s) [literal "a"])
    by (constructor; [exists "a"; reflexivity|constructor]).
  split; [exact H|].
  exact (proj1 (children_first_panic [literal "a"] (index (-1)) [index (-2)]
                  sample _ H eq_refl)).
Defined.

(** ** When [Resolve] panics *)

Lemma segments_not_nil : forall file : string, segments file <> [].
Proof. intros file. unfold segments. apply Split_not_nil. Qed.

Lemma segments_length_pos :
  forall file : string, 1 <= Z.of_nat (List.length (segments file)).
Proof.
  intros file. pose proof (segments_not_nil file).
  destruct (segments file); [contradiction|]. cbn [List.length]. lia.
Qed.

Lemma at_index_panic :
  forall (xs : list string) (i : Z) (p : panic),
    xs <> [] -> i <= Z.of_nat (List.length xs) ->
    at_index xs i = Panic p -> index_panic p.
Proof.
  intros xs i p Hne Hi H. unfold at_index in H.
  destruct ((0 <=? i) && (i <? Z.of_nat (List.length xs)))%bool eqn:E.
  - apply andb_true_iff in E. destruct E as [E1 E2].
    apply Z.leb_le in E1. apply Z.ltb_lt in E2.
    destruct (nth_error xs (Z.to_nat i)) eqn:En; [discriminate H|].
    apply nth_error_None in En. lia.
  - injection H as <-. exists i, (Z.of_nat (List.length xs)).
    split; [reflexivity|]. split.
    + destruct xs; [contradiction|]. cbn [List.length]. lia.
    + apply andb_false_iff in E. destruct E as [E|E];
        [apply Z.leb_gt in E|apply Z.ltb_ge in E]; lia.
Qed.

Lemma sub_slice_ok :
  forall (xs : list string) (lo hi : Z),
    0 <= lo <= hi -> hi <= Z.of_nat (List.length xs) ->
    sub_slice xs lo hi =
    Ok (firstn (Z.to_nat (hi - lo)) (skipn (Z.to_nat lo) xs)).
Proof.
  intros xs lo hi H1 H2. unfold sub_slice.
  replace ((0 <=? lo) && (lo <=? hi) && (hi <=? Z.of_nat (List.length xs)))%bool
    with true; [reflexivity|].
  symmetry. rewrite !andb_true_iff, !Z.leb_le. lia.
Qed.

Lemma leaf_Resolve_panic :
  forall (dat : Data) (p : panic),
    (forall i, index_Resolve i dat = Panic p -> index_panic p) /\
    (forall b e, slice_Resolve b e dat = Panic p -> index_panic p) /\
    (forall name, fragment_Resolve name dat = Panic p -> index_panic p).
Proof.
  intros dat p. repeat split.
  - intros i H. unfold index_Resolve in H.
    destruct (i <? _) eqn:E; [|discriminate H]. apply Z.ltb_lt in E.
    apply (at_index_panic _ i p (segments_not_nil (File dat))); [lia|exact H].
  - intros b e H. unfold slice_Resolve in H.
    set (xs := segments (File dat)) in *.
    set (count := Z.of_nat (List.length xs)) in *.
    pose proof (normalize_bounds b count ltac:(subst count; lia)) as Hb.
    pose proof (normalize_bounds e count ltac:(subst count; lia)) as He.
    destruct (normalize e count =? normalize b count).
    + apply (at_index_panic xs (normalize b count) p
               (segments_not_nil (File dat))); [apply Hb|exact H].
    + destruct (normalize b count <? normalize e count) eqn:E;
        [|discriminate H].
      apply Z.ltb_lt in E. rewrite sub_slice_ok in H by (fold count; lia).
      discriminate H.
  - intros name H. unfold fragment_Resolve in H.
    repeat match type of H with
           | (if ?c then _ else _) = _ => destruct c; [discriminate H|]
           end.
    destruct (Atoi name) as [z|]; [|discriminate H]. cbv zeta in H.
    destruct (_ <? _) eqn:E; [|discriminate H]. apply Z.ltb_lt in E.
    apply (at_index_panic (segments name) (Int.sub z 1) p
             (segments_not_nil name)); [lia|exact H].
Qed.

Lemma each_panic :
  forall (f : Resolver -> result string) (rs : list Resolver) (p : panic),
    each f rs = Panic p -> exists r, In r rs /\ f r = Panic p.
Proof.
  intros f. induction rs as [|r rs IH]; intros p H; [discriminate H|].
  cbn [each] in H. fold (each f rs) in H.
  destruct (f r) as [s|e|q] eqn:Er; cbn [bind] in H.
  - destruct (each f rs) as [ss|e|q] eqn:El; cbn [bind] in H;
      try discriminate H.
    destruct (IH _ eq_refl) as (r' & Hin & Hr').
    injection H as <-. exists r'. split; [right; exact Hin|exact Hr'].
  - discriminate H.
  - injection H as <-. exists r. split; [left; reflexivity|exact Er].
Qed.

(** X12: the only panic [Resolve] can raise, on any tree and any record,
    is an index out of range at [xs[i]], and only with [i] negative or equal
    to the length; the slice expression [xs[begin:end]] never goes out of
    bounds. *)
Theorem Resolve_panic_kind (r : Resolver) (dat : Data) (p : panic)
  (H : Resolve r dat = Panic p) :
  exists i n, p = IndexOutOfRange i n /\ 1 <= n /\ (i < 0 \/ i = n).
Proof.
  change (index_panic p). revert p H.
  induction r as [|rs IH|s|i|b e|name|rs IH] using Resolver_tree_ind;
    intros p H; cbn [Resolve] in H.
  - discriminate H.
  - destruct (each (fun r => Resolve r dat) rs) as [ss|e|q] eqn:El;
      try discriminate H.
    injection H as <-. destruct (each_panic _ _ _ El) as (r' & Hin & Hr').
    rewrite Forall_forall in IH. exact (IH r' Hin _ Hr').
  - discriminate H.
  - exact (proj1 (leaf_Resolve_panic dat p) i H).
  - exact (proj1 (proj2 (leaf_Resolve_panic dat p)) b e H).
  - exact (proj2 (proj2 (leaf_Resolve_panic dat p)) name H).
  - revert H. generalize "". induction IH as [|r rs Hr _ IHrs]; intros buf H.
    + discriminate H.
    + destruct (Resolve r dat) as [s|e|q] eqn:Er; cbn [bind] in H.
      * exact (IHrs _ H).
      * discriminate H.
      * injection H as <-. exact (Hr q eq_refl).
Qed.

Lemma Resolve_panic_kind_witness :
  Resolve (path [slice 5 7]) sample = Panic (IndexOutOfRange 3 3) /\
  exists i n, IndexOutOfRange 3 3 = IndexOutOfRange i n /\ 1 <= n /\
              (i < 0 \/ i = n).
Proof.
  assert (H : Resolve (path [slice 5 7]) sample = Panic (IndexOutOfRange 3 3))
    by reflexivity.
  split; [exact H|]. exact (Resolve_panic_kind _ sample _ H).
Defined.

Lemma in_range_bounds :
  forall z : Z, Int.in_range z = true -> Int.min_int <= z <= Int.max_int.
Proof.
  intros z H. unfold Int.in_range in H. apply andb_true_iff in H.
  rewrite !Z.leb_le in H. exact H.
Qed.

(** A bound is normalised to the count exactly when it is at least the
    count. *)
Lemma normalize_eq_size :
  forall index size : Z,
    Int.in_range index = true -> 1 <= size <= Int.max_int ->
    (normalize index size = size <-> size <= index).
Proof.
  intros index size Hi Hs. apply in_range_bounds in Hi.
  rewrite (normalize_clamp index size Hi) by lia.
  destruct (index <? 0) eqn:E; [apply Z.ltb_lt in E|apply Z.ltb_ge in E]; lia.
Qed.

(** X13: with bounds within the range of [int], a slice node panics on a
    record exactly when both bounds are at least the number of directory
    segments of its file; on every other record it returns a string. *)
Theorem slice_Resolve_panics_iff (b e : Z) (dat : Data)
  (Hb : Int.in_range b = true) (He : Int.in_range e = true)
  (Hcount : segment_count dat <= Int.max_int) :
  ((exists p, Resolve (slice b e) dat = Panic p) <->
   segment_count dat <= b /\ segment_count dat <= e) /\
  ((exists s, Resolve (slice b e) dat = Ok s) <->
   b < segment_count dat \/ e < segment_count dat).
Proof.
  unfold segment_count in *.
  pose proof (segments_length_pos (File dat)) as Hpos.
  set (count := Z.of_nat (List.length (segments (File dat)))) in *.
  pose proof (normalize_eq_size b count Hb ltac:(lia)) as Enb.
  pose proof (normalize_eq_size e count He ltac:(lia)) as Ene.
  pose proof (normalize_bounds b count ltac:(lia)) as Bb.
  pose proof (normalize_bounds e count ltac:(lia)) as Be.
  pose proof (slice_Resolve_equal b e dat) as H1.
  pose proof (slice_Resolve_equal_at_count b e dat) as H2.
  pose proof (slice_Resolve_less b e dat) as H3.
  pose proof (slice_Resolve_greater b e dat) as H4.
  cbv zeta in H1, H2, H3, H4. fold count in H1, H2, H3, H4.
  destruct (Z.lt_trichotomy (normalize b count) (normalize e count))
    as [Hlt|[Heq|Hgt]].
  - rewrite (H3 Hlt). split; split.
    + intros [p Hp]. discriminate Hp.
    + intros [Hcb Hce]. apply Enb in Hcb. apply Ene in Hce. lia.
    + intros _. destruct (Z_lt_le_dec b count) as [Hl|Hl]; [left; exact Hl|].
      right. apply Enb in Hl. destruct (Z_lt_le_dec e count) as [Hl'|Hl'];
        [exact Hl'|apply Ene in Hl'; lia].
    + intros _. eexists. reflexivity.
  - destruct (Z.eq_dec (normalize b count) count) as [Hc|Hc].
    + rewrite (H2 Heq Hc). split; split.
      * intros _. split; [apply Enb; exact Hc|apply Ene; lia].
      * intros _. eexists. reflexivity.
      * intros [s Hs]. discriminate Hs.
      * intros [Hl|Hl]; exfalso.
        -- assert (count <= b) by (apply Enb; exact Hc). lia.
        -- assert (count <= e) by (apply Ene; lia). lia.
    + rewrite (H1 Heq ltac:(lia)). split; split.
      * intros [p Hp]. discriminate Hp.
      * intros [Hcb _]. apply Enb in Hcb. contradiction.
      * intros _. left. destruct (Z_lt_le_dec b count) as [Hl|Hl]; [exact Hl|].
        apply Enb in Hl. contradiction.
      * intros _. eexists. reflexivity.
  - rewrite (H4 Hgt). split; split.
    + intros [p Hp]. discriminate Hp.
    + intros [Hcb Hce]. apply Enb in Hcb. apply Ene in Hce. lia.
    + intros _. destruct (Z_lt_le_dec e count) as [Hl|Hl]; [right; exact Hl|].
      apply Ene in Hl. lia.
    + intros _. eexists. reflexivity.
Qed.

Lemma slice_Resolve_panics_iff_witness :
  Int.in_range 3 = true /\ segment_count sample = 3 /\
  (exists p, Resolve (slice 3 4) sample = Panic p) /\
  (exists s, Resolve (slice 3 (-1)) sample = Ok s).
Proof.
  split; [reflexivity|]. split; [reflexivity|]. split.
  - apply (proj1 (slice_Resolve_panics_iff 3 4 sample eq_refl eq_refl
                    ltac:(discriminate))).
    split; discriminate.
  - apply (proj2 (slice_Resolve_panics_iff 3 (-1) sample eq_refl eq_refl
                    ltac:(discriminate))).
    right. reflexivity.
Defined.

(** ** Trees that never panic *)

Lemma each_all_Ok :
  forall (f : Resolver -> result string) (rs : list Resolver),
    Forall (fun r => exists s, f r = Ok s) rs -> exists ss, each f rs = Ok ss.
Proof.
  intros f rs H. induction H as [|r rs [s Hs] _ [ss IH]].
  - exists []. reflexivity.
  - exists (s :: ss). cbn [each]. fold (each f rs). rewrite Hs, IH. reflexivity.
Qed.

Lemma fragment_Resolve_total :
  forall (name : string) (dat : Data),
    match Atoi name with
    | Some n => 1 <= n
    | None => True
    end ->
    exists s, fragment_Resolve name dat = Ok s.
Proof.
  intros name dat H. unfold fragment_Resolve.
  repeat match goal with
         | |- exists s, (if ?c then _ else _) = Ok s =>
             destruct c; [eexists; reflexivity|]
         end.
  destruct (Atoi name) as [n|] eqn:Ea; [|eexists; reflexivity].
  cbv zeta. rewrite (segments_numeric _ _ Ea).
  pose proof (in_range_bounds _ (Atoi_in_range _ _ Ea)) as Hr.
  unfold Int.sub.
  rewrite wrap_in_range by (unfold Int.min_int, Int.max_int in *; lia).
  change (Z.of_nat (List.length ["."])) with 1.
  destruct (n - 1 <? 1) eqn:E; [|eexists; reflexivity].
  apply Z.ltb_lt in E. replace (n - 1) with 0 by lia.
  eexists. reflexivity.
Qed.

Lemma slice_Resolve_total :
  forall (b e : Z) (dat : Data),
    Int.in_range b = true -> Int.in_range e = true ->
    segment_count dat <= Int.max_int ->
    b < segment_count dat \/ e < segment_count dat ->
    exists s, Resolve (slice b e) dat = Ok s.
Proof.
  intros b e dat Hb He Hcount Hlt. unfold segment_count in *.
  pose proof (segments_length_pos (File dat)) as Hpos.
  set (count := Z.of_nat (List.length (segments (File dat)))) in *.
  pose proof (normalize_eq_size b count Hb ltac:(lia)) as Enb.
  pose proof (normalize_eq_size e count He ltac:(lia)) as Ene.
  pose proof (normalize_bounds b count ltac:(lia)) as Bb.
  pose proof (slice_Resolve_equal b e dat) as H1.
  pose proof (slice_Resolve_less b e dat) as H3.
  pose proof (slice_Resolve_greater b e dat) as H4.
  cbv zeta in H1, H3, H4. fold count in H1, H3, H4.
  destruct (Z.lt_trichotomy (normalize b count) (normalize e count))
    as [Hl|[Heq|Hg]].
  - rewrite (H3 Hl). eexists. reflexivity.
  - assert (Hne : normalize b count < count).
    { destruct (Z.eq_dec (normalize b count) count) as [Hc|Hc]; [|lia].
      assert (count <= b) by (apply Enb; exact Hc).
      assert (count <= e) by (apply Ene; lia). lia. }
    rewrite (H1 Heq Hne). eexists. reflexivity.
  - rewrite (H4 Hg). eexists. reflexivity.
Qed.

(** X14: a tree without negative index, without numeric fragment name
    below one, and whose slices have bounds within the range of [int] of
    which one at least is not above zero, resolves to a string on every
    record: no panic. *)
Theorem panic_free_Resolve (r : Resolver) (dat : Data)
  (Hfree : panic_free r = true)
  (Hcount : segment_count dat <= Int.max_int) :
  exists s, Resolve r dat = Ok s.
Proof.
  unfold segment_count in Hcount.
  pose proof (segments_length_pos (File dat)) as Hpos.
  induction r as [|rs IH|s|i|b e|name|rs IH] using Resolver_tree_ind;
    cbn [Resolve panic_free] in *.
  - eexists. reflexivity.
  - assert (Hall : Forall (fun r => exists s, Resolve r dat = Ok s) rs).
    { rewrite forallb_forall in Hfree. rewrite Forall_forall in IH |- *.
      intros x Hx. exact (IH x Hx (Hfree x Hx)). }
    destruct (each_all_Ok _ rs Hall) as [ss ->]. eexists. reflexivity.
  - eexists. reflexivity.
  - apply Z.leb_le in Hfree. unfold index_Resolve.
    destruct (i <? _) eqn:E; [|eexists; reflexivity]. apply Z.ltb_lt in E.
    rewrite at_index_in_range by lia. eexists. reflexivity.
  - rewrite !andb_true_iff in Hfree. destruct Hfree as [[Hb He] Hz].
    apply (slice_Resolve_total b e dat Hb He Hcount).
    unfold segment_count. apply orb_true_iff in Hz.
    destruct Hz as [Hz|Hz]; apply Z.leb_le in Hz; lia.
  - apply fragment_Resolve_total. destruct (Atoi name); [|exact I].
    apply Z.leb_le. exact Hfree.
  - assert (Hall : Forall (fun r => exists s, Resolve r dat = Ok s) rs).
    { rewrite forallb_forall in Hfree. rewrite Forall_forall in IH |- *.
      intros x Hx. exact (IH x Hx (Hfree x Hx)). }
    clear IH Hfree. generalize "".
    induction Hall as [|r rs [s Hs] _ IHrs]; intros buf.
    + eexists. reflexivity.
    + rewrite Hs. cbn [bind]. apply IHrs.
Qed.

Lemma panic_free_Resolve_witness :
  panic_free (path [literal "out"; compound [fragment "year"; index 7];
                    slice (-2) 9; fragment "+1"]) = true /\
  segment_count sample <= Int.max_int /\
  exists s, Resolve (path [literal "out"; compound [fragment "year"; index 7];
                           slice (-2) 9; fragment "+1"]) sample = Ok s.
Proof.
  assert (Hc : segment_count sample <= Int.max_int) by discriminate.
  split; [reflexivity|]. split; [exact Hc|].
  exact (panic_free_Resolve
           (path [literal "out"; compound [fragment "year"; index 7];
                  slice (-2) 9; fragment "+1"]) sample eq_refl Hc).
Defined.

(** ** Keywords are read without regard to case *)

Lemma lower_byte_facts :
  forall c : ascii,
    lower_byte (lower_byte c) = lower_byte c /\
    isNumber (lower_byte c) = isNumber c /\
    Ascii.eqb (lower_byte c) "-" = Ascii.eqb c "-" /\
    Ascii.eqb (lower_byte c) "+" = Ascii.eqb c "+" /\
    (isNumber c || Ascii.eqb c "-" || Ascii.eqb c "+" = true -> lower_byte c = c).
Proof.
  intros c. destruct c as [[] [] [] [] [] [] [] []];
    repeat split; try reflexivity; intros H; vm_compute in H;
    (discriminate H || reflexivity).
Qed.

Lemma ToLower_idem : forall s : string, ToLower (ToLower s) = ToLower s.
Proof.
  unfold ToLower. induction s as [|c s IH]; [reflexivity|].
  cbn [map_str]. rewrite IH, (proj1 (lower_byte_facts c)). reflexivity.
Qed.

Lemma digits_val_ToLower :
  forall (s : string) (acc : Z), digits_val acc (ToLower s) = digits_val acc s.
Proof.
  unfold ToLower. induction s as [|c s IH]; intros acc; [reflexivity|].
  cbn [map_str digits_val].
  destruct (lower_byte_facts c) as (_ & Hn & _ & _ & Hid). rewrite Hn.
  destruct (isNumber c) eqn:E; [|reflexivity].
  rewrite (Hid eq_refl). apply IH.
Qed.

Lemma Atoi_ToLower : forall s : string, Atoi (ToLower s) = Atoi s.
Proof.
  intros [|c s]; [reflexivity|]. unfold Atoi.
  change (ToLower (String c s)) with (String (lower_byte c) (ToLower s)).
  destruct (lower_byte_facts c) as (_ & _ & Hm & Hp & Hid). rewrite Hm, Hp.
  destruct (Ascii.eqb c "-" || Ascii.eqb c "+")%bool eqn:E.
  - destruct s as [|c' s]; [reflexivity|].
    change (ToLower (String c' s)) with (String (lower_byte c') (ToLower s)).
    change (String (lower_byte c') (ToLower s)) with (ToLower (String c' s)).
    rewrite digits_val_ToLower. reflexivity.
  - change (String (lower_byte c) (ToLower s)) with (ToLower (String c s)).
    rewrite digits_val_ToLower. reflexivity.
Qed.

Lemma digits_val_lower_id :
  forall (s : string) (acc v : Z), digits_val acc s = Some v -> ToLower s = s.
Proof.
  unfold ToLower. induction s as [|c s IH]; intros acc v H; [reflexivity|].
  cbn [digits_val] in H. destruct (isNumber c) eqn:E; [|discriminate H].
  cbn [map_str]. rewrite (IH _ _ H).
  destruct (lower_byte_facts c) as (_ & _ & _ & _ & Hid).
  rewrite Hid by (rewrite E; reflexivity). reflexivity.
Qed.

(** A name [Atoi] accepts has no letter to put in lower case. *)
Lemma Atoi_lower_id :
  forall (s : string) (n : Z), Atoi s = Some n -> ToLower s = s.
Proof.
  intros [|c s] n H; [reflexivity|].
  pose proof (Atoi_first_byte _ _ _ H) as Hc.
  destruct (lower_byte_facts c) as (_ & _ & _ & _ & Hid).
  change (ToLower (String c s)) with (String (lower_byte c) (ToLower s)).
  rewrite (Hid Hc). f_equal. unfold Atoi in H.
  destruct (Ascii.eqb c "-" || Ascii.eqb c "+")%bool.
  - destruct s as [|c' s]; [reflexivity|].
    destruct (digits_val 0 (String c' s)) as [v|] eqn:D; [|discriminate H].
    exact (digits_val_lower_id _ _ _ D).
  - destruct (digits_val 0 (String c s)) as [v|] eqn:D; [|discriminate H].
    cbn [digits_val] in D. destruct (isNumber c); [|discriminate D].
    exact (digits_val_lower_id _ _ _ D).
Qed.

(** X15: the name of a fragment is read without regard to the case of its
    ASCII letters: a name and the same name in lower case resolve alike on
    every record, to the same string or the same panic. *)
Theorem fragment_case_insensitive (name : string) (dat : Data)
  (Hascii : is_ascii name = true) :
  Resolve (fragment name) dat = Resolve (fragment (ToLower name)) dat.
Proof.
  cbn [Resolve]. unfold fragment_Resolve.
  rewrite ToLower_idem, Atoi_ToLower.
  destruct (Atoi name) as [n|] eqn:Ea; [|reflexivity].
  rewrite (Atoi_lower_id _ _ Ea). reflexivity.
Qed.

Lemma fragment_case_insensitive_witness :
  is_ascii "TimeStamp" = true /\
  Resolve (fragment "TimeStamp") sample = Ok "1709622489" /\
  Resolve (fragment "TimeStamp") sample = Resolve (fragment "timestamp") sample.
Proof.
  split; [reflexivity|]. split; [reflexivity|].
  exact (fragment_case_insensitive "TimeStamp" sample eq_refl).
Defined.

(** ** [splitMime] *)

Lemma Index_byte :
  forall (s : string) (c : ascii), Index s (String c "") = IndexByte s c.
Proof.
  induction s as [|x s IH]; intros c; [reflexivity|].
  cbn [Index HasPrefix IndexByte]. rewrite andb_true_r, IH. reflexivity.
Qed.

Lemma len_to_nat : forall s : string, Z.to_nat (len s) = String.length s.
Proof. intros s. unfold len. apply Nat2Z.id. Qed.

(** X16: for a content type [t/sub] or [t/sub;params], with no slash in
    [t], a subtype [sub] that is not empty and holds no semicolon,
    [splitMime] returns [sub]; a content type that ends with its first
    slash, or has none, is returned whole when it holds no semicolon. *)
Theorem splitMime_subtype (t sub params : string)
  (Ht : lacks "/" t = true) (Hne : sub <> "") (Hsub : lacks ";" sub = true) :
  splitMime (t ++ String "/" sub) = sub /\
  splitMime (t ++ String "/" (sub ++ String ";" params)) = sub /\
  (lacks ";" t = true ->
   splitMime (t ++ String "/" "") = t ++ String "/" "" /\ splitMime t = t).
Proof.
  pose proof (len_nonneg t) as Hlt. pose proof (len_nonneg sub) as Hls.
  pose proof (len_nonneg params) as Hlp.
  assert (Hpos : 0 < len sub).
  { destruct sub; [contradiction|]. rewrite len_cons. pose proof (len_nonneg sub). lia. }
  assert (Hskip : forall rest, skipn_str (Z.to_nat (len t + 1)) (t ++ String "/" rest) = rest).
  { intros rest. replace (t ++ String "/" rest) with ((t ++ String "/" "") ++ rest)
      by (rewrite str_app_assoc; reflexivity).
    replace (Z.to_nat (len t + 1)) with (String.length (t ++ String "/" ""))
      by (rewrite <- len_to_nat, len_app; reflexivity).
    apply skipn_str_app. }
  split; [|split].
  - unfold splitMime. cbv zeta. rewrite !Index_byte, (IndexByte_found t sub "/" Ht).
    rewrite len_app, len_cons.
    replace ((0 <=? len t) && (len t + 1 <? len t + (1 + len sub)))%bool
      with true by (symmetry; rewrite andb_true_iff, Z.leb_le, Z.ltb_lt; lia).
    rewrite Hskip, (IndexByte_lacks sub ";" Hsub). reflexivity.
  - unfold splitMime. cbv zeta. rewrite !Index_byte, (IndexByte_found t _ "/" Ht).
    rewrite len_app, len_cons, len_app, len_cons.
    replace ((0 <=? len t) &&
             (len t + 1 <? len t + (1 + (len sub + (1 + len params)))))%bool
      with true by (symmetry; rewrite andb_true_iff, Z.leb_le, Z.ltb_lt; lia).
    rewrite Hskip, (IndexByte_found sub params ";" Hsub).
    replace (0 <=? len sub) with true by (symmetry; apply Z.leb_le; lia).
    rewrite len_to_nat. apply firstn_str_app.
  - intros Hsemi. split.
    + unfold splitMime. cbv zeta. rewrite !Index_byte, (IndexByte_found t "" "/" Ht).
      rewrite len_app, len_cons. change (len "") with 0.
      replace ((0 <=? len t) && (len t + 1 <? len t + (1 + 0)))%bool
        with false by (symmetry; rewrite andb_false_iff, Z.ltb_ge; right; lia).
      rewrite IndexByte_lacks; [reflexivity|].
      rewrite lacks_app, Hsemi. reflexivity.
    + unfold splitMime. cbv zeta. rewrite !Index_byte, (IndexByte_lacks t "/" Ht).
      cbn [Z.leb andb]. change (0 <=? -1) with false. cbn [andb].
      rewrite (IndexByte_lacks t ";" Hsemi). reflexivity.
Qed.

Lemma splitMime_subtype_witness :
  lacks "/" "application" = true /\ "vnd.ms-excel" <> "" /\
  splitMime "application/vnd.ms-excel; charset=binary" = "vnd.ms-excel".
Proof.
  assert (Hne : "vnd.ms-excel" <> "") by discriminate.
  split; [reflexivity|]. split; [exact Hne|].
  exact (proj1 (proj2 (splitMime_subtype "application" "vnd.ms-excel"
                         " charset=binary" eq_refl Hne eq_refl))).
Defined.

Lemma firstn_IndexByte_lacks :
  forall (s : string) (c : ascii),
    0 <= IndexByte s c ->
    lacks c (firstn_str (Z.to_nat (IndexByte s c)) s) = true.
Proof.
  intros s c H. destruct (IndexByte_split s c H) as (a & b & E & Ha & Hl).
  rewrite <- Hl, len_to_nat, E, firstn_str_app. exact Ha.
Qed.

(** X17: what [splitMime] returns never holds a semicolon, whatever the
    content type. *)
Theorem splitMime_no_semicolon (mime : string) :
  lacks ";" (splitMime mime) = true.
Proof.
  unfold splitMime. cbv zeta.
  set (m := if (0 <=? Index mime "/") && (Index mime "/" + 1 <? len mime)
            then skipn_str (Z.to_nat (Index mime "/" + 1)) mime else mime).
  rewrite (Index_byte m). destruct (0 <=? IndexByte m ";") eqn:E.
  - apply Z.leb_le in E. apply firstn_IndexByte_lacks. exact E.
  - apply Z.leb_gt in E. apply IndexByte_none. exact E.
Qed.

(** ** The fragments of the acquisition time *)

Lemma forallb_seq_Z :
  forall (P : Z -> bool) (n : nat),
    forallb (fun k => P (Z.of_nat k)) (seq 0 n) = true ->
    forall v : Z, 0 <= v < Z.of_nat n -> P v = true.
Proof.
  intros P n H v Hv. rewrite forallb_forall in H.
  rewrite <- (Z2Nat.id v) by lia. apply H. apply in_seq. lia.
Qed.

Lemma Sprintf_02d :
  forall v : Z, 0 <= v < 100 -> Sprintf_0d 2 v = two_digits v.
Proof.
  intros v Hv. apply String.eqb_eq.
  apply (forallb_seq_Z (fun z => String.eqb (Sprintf_0d 2 z) (two_digits z)) 100);
    [vm_compute; reflexivity|exact Hv].
Qed.

Lemma Sprintf_03d :
  forall v : Z, 0 <= v < 1000 -> Sprintf_0d 3 v = three_digits v.
Proof.
  intros v Hv. apply String.eqb_eq.
  apply (forallb_seq_Z (fun z => String.eqb (Sprintf_0d 3 z) (three_digits z))
           1000); [vm_compute; reflexivity|exact Hv].
Qed.

Lemma time_of_day_range :
  forall t : time.Time,
    0 <= time.Hour t <= 23 /\ 0 <= time.Minute t <= 59 /\
    0 <= time.Second t <= 59.
Proof.
  intros t. unfold time.Hour, time.Minute, time.Second, time.secondsPerDay.
  Z.div_mod_to_equations. lia.
Qed.

(** X18: on every record the hour, minute (or min) and second (or sec)
    fragments resolve to exactly two decimal digits, those of the hour of
    the day (0 to 23), of the minute and of the second (0 to 59) of the
    acquisition time. *)
Theorem time_of_day_fragments (dat : Data) :
  let t := AcqTime dat in
  Resolve (fragment "hour") dat = Ok (two_digits (time.Hour t)) /\
  Resolve (fragment "minute") dat = Ok (two_digits (time.Minute t)) /\
  Resolve (fragment "min") dat = Ok (two_digits (time.Minute t)) /\
  Resolve (fragment "second") dat = Ok (two_digits (time.Second t)) /\
  Resolve (fragment "sec") dat = Ok (two_digits (time.Second t)) /\
  0 <= time.Hour t <= 23 /\ 0 <= time.Minute t <= 59 /\
  0 <= time.Second t <= 59.
Proof.
  intros t. destruct (time_of_day_range t) as (Hh & Hm & Hs).
  repeat split; try lia; cbn; fold t;
    rewrite Sprintf_02d by lia; reflexivity.
Qed.

Lemma absDate_split :
  forall abs : Z,
    time.absDate abs =
    let '(y, yd) := year_yday abs in
    let '(m, d) := month_day (time.isLeap y) yd in
    (y, m, d, yd).
Proof.
  intros abs. unfold time.absDate, year_yday, month_day. cbv zeta.
  destruct (time.isLeap _ && (_ =? 31 + 29 - 1))%bool; [reflexivity|].
  destruct (_ <=? _); reflexivity.
Qed.

Lemma year_yday_range :
  forall abs : Z,
    0 <= snd (year_yday abs) <= 365 /\
    (snd (year_yday abs) = 365 -> time.isLeap (fst (year_yday abs)) = true).
Proof.
  intros abs.
  unfold year_yday, time.isLeap, time.absoluteZeroYear, time.secondsPerDay,
    time.daysPer400Years, time.daysPer100Years, time.daysPer4Years.
  cbv zeta. cbn [fst snd]. split.
  - Z.div_mod_to_equations. lia.
  - intros H.
    rewrite andb_true_iff, orb_true_iff, negb_true_iff, !Z.eqb_eq, Z.eqb_neq.
    Z.to_euclidean_division_equations. lia.
Qed.

Lemma month_day_range :
  forall (leap : bool) (yday : Z),
    0 <= yday <= 365 -> (yday = 365 -> leap = true) ->
    1 <= fst (month_day leap yday) <= 12 /\
    1 <= snd (month_day leap yday) <= 31.
Proof.
  intros leap yday Hy Hleap.
  set (ok := fun (l : bool) (z : Z) =>
               let '(m, d) := month_day l z in
               ((1 <=? m) && (m <=? 12) && (1 <=? d) && (d <=? 31))%bool).
  assert (H : ok leap yday = true).
  { destruct leap.
    - apply (forallb_seq_Z (ok true) 366); [vm_compute; reflexivity|lia].
    - apply (forallb_seq_Z (ok false) 365); [vm_compute; reflexivity|].
      assert (yday <> 365) by (intros E; specialize (Hleap E); discriminate).
      lia. }
  unfold ok in H. destruct (month_day leap yday) as [m d]. cbn [fst snd].
  rewrite !andb_true_iff, !Z.leb_le in H. lia.
Qed.

(** X19: on every record the doy fragment resolves to exactly three
    decimal digits, those of the day of the year (1 to 366), and the month
    and day fragments to exactly two, those of the month (1 to 12) and of the
    day of the month (1 to 31) of the acquisition time. *)
Theorem date_fragments (dat : Data) :
  let t := AcqTime dat in
  Resolve (fragment "doy") dat = Ok (three_digits (time.YearDay t)) /\
  Resolve (fragment "month") dat = Ok (two_digits (time.Month t)) /\
  Resolve (fragment "day") dat = Ok (two_digits (time.Day t)) /\
  1 <= time.YearDay t <= 366 /\ 1 <= time.Month t <= 12 /\
  1 <= time.Day t <= 31.
Proof.
  intros t.
  assert (H : 1 <= time.YearDay t <= 366 /\ 1 <= time.Month t <= 12 /\
              1 <= time.Day t <= 31).
  { unfold time.YearDay, time.Month, time.Day.
    rewrite (absDate_split (time.abs t)).
    destruct (year_yday_range (time.abs t)) as [Hr Hl].
    destruct (year_yday (time.abs t)) as [y yd]. cbn [fst snd] in Hr, Hl.
    pose proof (month_day_range (time.isLeap y) yd Hr Hl) as Hmd.
    destruct (month_day (time.isLeap y) yd) as [m d]. cbn [fst snd] in Hmd.
    lia. }
  destruct H as (Hy & Hm & Hd).
  repeat split; try lia; cbn; fold t.
  - rewrite Sprintf_03d by lia. reflexivity.
  - rewrite Sprintf_02d by lia. reflexivity.
  - rewrite Sprintf_02d by lia. reflexivity.
Qed.

(** ** The rendering of parsed trees *)

Lemma no_sep_app :
  forall a b : string, no_sep (a ++ b) = (no_sep a && no_sep b)%bool.
Proof. intros a b. rewrite !no_sep_lacks. apply lacks_app. Qed.

Lemma uint_no_sep :
  forall d : Decimal.uint, no_sep (NilEmpty.string_of_uint d) = true.
Proof. induction d; simpl; try assumption; reflexivity. Qed.

Lemma Itoa_no_sep : forall z : Z, no_sep (Itoa z) = true.
Proof.
  intros z. unfold Itoa, NilZero.string_of_int, NilZero.string_of_uint.
  destruct (Z.to_int z) as [d|d]; destruct d; try reflexivity;
    try apply (uint_no_sep (Decimal.D0 d));
    try (change (no_sep (NilEmpty.string_of_uint d) = true); apply uint_no_sep).
Qed.

Lemma compound_String_write :
  forall (rs : list Resolver) (buf : string),
    (fix write (l : list Resolver) (buf : string) : string :=
       match l with
       | [] => buf
       | r :: l' => write l' (buf ++ Resolver_String r)
       end) rs buf = buf ++ String.concat "" (map Resolver_String rs).
Proof.
  induction rs as [|r rs IH]; intros buf.
  - cbn. rewrite str_app_nil_r. reflexivity.
  - rewrite IH, str_app_assoc. f_equal. cbn [map].
    destruct (map Resolver_String rs); [cbn; rewrite str_app_nil_r|];
      reflexivity.
Qed.

Lemma concat_no_sep :
  forall l : list string,
    forallb no_sep l = true -> no_sep (String.concat "" l) = true.
Proof.
  induction l as [|x l IH]; intros H; [reflexivity|].
  cbn [forallb] in H. apply andb_true_iff in H. destruct H as [Hx Hl].
  destruct l as [|y l]; [exact Hx|].
  rewrite concat_cons2. cbn [append]. rewrite no_sep_app, Hx. exact (IH Hl).
Qed.

Lemma leaf_String_no_sep :
  forall r : Resolver, leaf_wf r = true -> no_sep (Resolver_String r) = true.
Proof.
  intros r H. destruct r as [|rs|s|i|b e|name|rs]; try discriminate H;
    cbn [Resolver_String leaf_wf] in *.
  - rewrite !andb_true_iff in H. destruct H as [_ Hs].
    rewrite !no_sep_app, (no_sep_lacks s), Hs. reflexivity.
  - rewrite !no_sep_app, Itoa_no_sep. reflexivity.
  - rewrite !no_sep_app, !Itoa_no_sep. reflexivity.
  - rewrite !andb_true_iff in H. destruct H as [_ Hs].
    rewrite !no_sep_app, (no_sep_lacks name), Hs. reflexivity.
Qed.

Lemma component_String_no_sep :
  forall r : Resolver,
    component_wf r = true -> no_sep (Resolver_String r) = true.
Proof.
  intros r H. destruct r as [|rs|s|i|b e|name|rs];
    try (apply leaf_String_no_sep; exact H).
  cbn [component_wf] in H. apply andb_true_iff in H. destruct H as [H _].
  cbn [Resolver_String]. rewrite compound_String_write.
  rewrite !no_sep_app. rewrite concat_no_sep; [reflexivity|].
  rewrite forallb_forall in H |- *. intros x Hx. apply in_map_iff in Hx.
  destruct Hx as (r & <- & Hr). exact (leaf_String_no_sep r (H r Hr)).
Qed.

Lemma normal_elem_long :
  forall (a b c : ascii) (r : string),
    no_sep (String a (String b (String c r))) = true ->
    normal_elem (String a (String b (String c r))) = true.
Proof.
  intros a b c r H. unfold normal_elem, elem_ok, nonempty.
  rewrite H. unfold filepath.dot, filepath.dotdot. cbn [String.eqb negb andb].
  destruct (Ascii.eqb a "."), (Ascii.eqb b "."); reflexivity.
Qed.

Lemma component_String_normal :
  forall r : Resolver,
    component_wf r = true -> normal_elem (Resolver_String r) = true.
Proof.
  intros r H. pose proof (component_String_no_sep r H) as Hs.
  destruct r as [|rs|s|i|b e|name|rs]; try discriminate H;
    cbn [Resolver_String append] in *; apply normal_elem_long; exact Hs.
Qed.

(** X20: the rendering of a parsed tree lists the renderings of its
    components in order, joined by the separator and unchanged: on a path
    node whose children are as the parser builds them, [filepath.Join]
    neither drops nor rewrites a child's rendering. *)
Theorem path_String_plain (rs : list Resolver)
  (H : tree_wf (path rs) = true) :
  Resolver_String (path rs) =
  "path(" ++ JoinStrings (map Resolver_String rs) "/" ++ ")".
Proof.
  cbn [tree_wf] in H. apply andb_true_iff in H. destruct H as [_ H].
  cbn [Resolver_String]. do 2 f_equal.
  apply Join_canon, normal_canon.
  rewrite forallb_forall in H |- *. intros x Hx. apply in_map_iff in Hx.
  destruct Hx as (r & <- & Hr). exact (component_String_normal r (H r Hr)).
Qed.

Lemma path_String_plain_witness :
  tree_wf (path [literal "data"; compound [fragment "year"; literal "-"; index 0];
                 slice (-2) 3]) = true /\
  Resolver_String (path [literal "data";
                         compound [fragment "year"; literal "-"; index 0];
                         slice (-2) 3]) =
  "path(literal(data)/compound(fragment(year)literal(-)index(0))/range(-2:3))".
Proof.
  split; [reflexivity|].
  exact (path_String_plain
           [literal "data"; compound [fragment "year"; literal "-"; index 0];
            slice (-2) 3] eq_refl).
Defined.

(** * The message filters of the mail plugin *)

(** ** The order of strings, sorting and binary search *)

Lemma ascii_compare_trans :
  forall (a b c : ascii) (r : comparison),
    Ascii.compare a b = r -> Ascii.compare b c = r -> Ascii.compare a c = r.
Proof.
  intros a b c r. unfold Ascii.compare.
  destruct r; rewrite ?N.compare_eq_iff, ?N.compare_lt_iff, ?N.compare_gt_iff;
    intros; [congruence|lia|lia].
Qed.

Lemma string_leb_trans :
  forall a b c : string,
    String.leb a b = true -> String.leb b c = true -> String.leb a c = true.
Proof.
  unfold String.leb.
  induction a as [|x a IH]; intros [|y b] [|z c] H1 H2; cbn in *;
    try reflexivity; try discriminate.
  destruct (Ascii.compare x y) eqn:Exy; try discriminate H1;
    destruct (Ascii.compare y z) eqn:Eyz; try discriminate H2.
  - rewrite (ascii_compare_trans _ _ _ _ Exy Eyz). exact (IH _ _ H1 H2).
  - apply Ascii.compare_eq_iff in Exy. subst y. rewrite Eyz. reflexivity.
  - apply Ascii.compare_eq_iff in Eyz. subst z. rewrite Exy. reflexivity.
  - rewrite (ascii_compare_trans _ _ _ _ Exy Eyz). reflexivity.
Qed.

Lemma string_leb_refl : forall a : string, String.leb a a = true.
Proof. intros a. destruct (String.leb_total a a); assumption. Qed.

Lemma insert_In :
  forall (x y : string) (l : list string),
    In y (sort.insert x l) <-> y = x \/ In y l.
Proof.
  intros x y. induction l as [|z l IH]; cbn [sort.insert].
  - cbn. intuition.
  - destruct (String.leb x z); cbn [In]; [intuition|]. rewrite IH. intuition.
Qed.

Lemma insert_sorted :
  forall (x : string) (l : list string),
    sorted l = true -> sorted (sort.insert x l) = true.
Proof.
  intros x. induction l as [|z l IH]; intros H; [reflexivity|].
  cbn [sorted] in H. apply andb_true_iff in H. destruct H as [Hz Hl].
  cbn [sort.insert]. destruct (String.leb x z) eqn:E.
  - cbn [sorted forallb]. rewrite E, Hz, Hl, !andb_true_r. cbn [andb].
    rewrite forallb_forall in Hz |- *. intros w Hw.
    exact (string_leb_trans _ _ _ E (Hz w Hw)).
  - cbn [sorted]. rewrite (IH Hl), andb_true_r.
    rewrite forallb_forall in Hz |- *. intros w Hw.
    apply insert_In in Hw. destruct Hw as [->|Hw]; [|exact (Hz w Hw)].
    destruct (String.leb_total x z) as [E'|E']; [congruence|exact E'].
Qed.

Lemma Strings_In :
  forall (y : string) (a : list string), In y (sort.Strings a) <-> In y a.
Proof.
  intros y. induction a as [|x a IH]; [reflexivity|].
  cbn [sort.Strings fold_right]. fold (sort.Strings a).
  rewrite insert_In, IH. cbn [In]. intuition.
Qed.

Lemma Strings_sorted :
  forall a : list string, sorted (sort.Strings a) = true.
Proof.
  induction a as [|x a IH]; [reflexivity|].
  cbn [sort.Strings fold_right]. apply insert_sorted. exact IH.
Qed.

Lemma sorted_nth :
  forall (l : list string) (k1 k2 : nat),
    sorted l = true -> (k1 <= k2 < List.length l)%nat ->
    String.leb (nth k1 l "") (nth k2 l "") = true.
Proof.
  induction l as [|x l IH]; intros k1 k2 H Hk; [cbn in Hk; lia|].
  cbn [sorted] in H. apply andb_true_iff in H. destruct H as [Hx Hl].
  destruct k1 as [|k1], k2 as [|k2]; cbn [nth]; cbn [List.length] in Hk.
  - apply string_leb_refl.
  - rewrite forallb_forall in Hx. apply Hx, nth_In. lia.
  - lia.
  - apply IH; [exact Hl|lia].
Qed.

(** The binary search: for a test that stays true once it is true, the
    result is where it becomes true. *)
Lemma Search_loop_spec :
  forall (f : Z -> bool) (n : Z),
    (forall k1 k2, 0 <= k1 <= k2 -> k2 < n -> f k1 = true -> f k2 = true) ->
    forall (fuel : nat) (i j : Z),
      0 <= i <= j -> j <= n -> j - i <= Z.of_nat fuel ->
      (forall k, 0 <= k < i -> f k = false) ->
      (forall k, j <= k < n -> f k = true) ->
      let r := sort.Search_loop fuel f i j in
      0 <= r <= n /\ (forall k, 0 <= k < r -> f k = false) /\
      (forall k, r <= k < n -> f k = true).
Proof.
  intros f n Hmono. induction fuel as [|fuel IH]; intros i j Hij Hjn Hf Hlo Hhi.
  - cbn. assert (i = j) by lia. subst j. repeat split; try lia; assumption.
  - cbn [sort.Search_loop]. destruct (i <? j) eqn:E.
    + apply Z.ltb_lt in E.
      assert (Hh : i <= (i + j) / 2 < j)
        by (split; [apply Z.div_le_lower_bound|apply Z.div_lt_upper_bound]; lia).
      destruct (f ((i + j) / 2)) eqn:Ef; cbn [negb].
      * apply IH; try lia; [exact Hlo|].
        intros k Hk. apply (Hmono ((i + j) / 2) k); [lia|lia|exact Ef].
      * apply IH; try lia; [|exact Hhi].
        intros k Hk. destruct (f k) eqn:Ek; [|reflexivity].
        rewrite (Hmono k ((i + j) / 2)) in Ef; [discriminate|lia|lia|exact Ek].
    + apply Z.ltb_ge in E. assert (i = j) by lia. subst j.
      repeat split; try lia; assumption.
Qed.

(** In a sorted slice, the string searched is there exactly when the
    search stops on it. *)
Lemma SearchStrings_member :
  forall (a : list string) (x : string),
    sorted a = true ->
    let i := sort.SearchStrings a x in
    ((i <? Z.of_nat (List.length a)) && String.eqb (nth (Z.to_nat i) a "") x
     = true <-> In x a).
Proof.
  intros a x Hs i. set (n := Z.of_nat (List.length a)).
  set (f := fun k => String.leb x (nth (Z.to_nat k) a "")).
  assert (Hmono : forall k1 k2, 0 <= k1 <= k2 -> k2 < n ->
                                f k1 = true -> f k2 = true).
  { intros k1 k2 H1 H2 Hf. unfold f in *.
    apply (string_leb_trans _ _ _ Hf). apply sorted_nth; [exact Hs|].
    subst n. lia. }
  destruct (Search_loop_spec f n Hmono (Z.to_nat n) 0 n) as (Hr & Hlo & Hhi);
    try lia.
  fold (sort.Search n f) in Hr, Hlo, Hhi.
  change (sort.Search n f) with i in Hr, Hlo, Hhi.
  rewrite andb_true_iff, Z.ltb_lt, String.eqb_eq. split.
  - intros [Hi Hx]. rewrite <- Hx. apply nth_In. subst n. lia.
  - intros Hin. destruct (In_nth a x "" Hin) as (k & Hk & Ek).
    assert (Hfk : f (Z.of_nat k) = true).
    { unfold f. rewrite Nat2Z.id, Ek. apply string_leb_refl. }
    assert (Hik : i <= Z.of_nat k).
    { destruct (Z_lt_le_dec (Z.of_nat k) i) as [Hlt|Hle]; [|exact Hle].
      rewrite (Hlo (Z.of_nat k)) in Hfk by lia. discriminate. }
    assert (Hi : i < n) by (subst n; lia).
    split; [exact Hi|].
    apply String.leb_antisym.
    + rewrite <- Ek. apply sorted_nth; [exact Hs|]. lia.
    + apply (Hhi i). lia.
Qed.

(** ** The filters *)

Lemma any_recipient_spec :
  forall (to recipients : list string),
    sorted to = true ->
    (mbox.any_recipient to recipients = true <->
     exists t, In t recipients /\ In t to).
Proof.
  intros to recipients Hs. induction recipients as [|t rest IH].
  - cbn. split; [discriminate|]. intros (t & [] & _).
  - cbn [mbox.any_recipient]. cbv zeta.
    pose proof (SearchStrings_member to t Hs) as Hm. cbv zeta in Hm.
    destruct ((_ <? _) && String.eqb _ t)%bool.
    + split; [|reflexivity]. intros _. exists t.
      split; [left; reflexivity|apply Hm; reflexivity].
    + rewrite IH. split.
      * intros (u & Hu & Hin). exists u. split; [right; exact Hu|exact Hin].
      * intros (u & [<-|Hu] & Hin).
        -- apply Hm in Hin. discriminate Hin.
        -- exists u. split; assumption.
Qed.

Lemma withTo_spec :
  forall (to : list string) (m : mbox.Message),
    mbox.withTo to m = true <->
    to = [] \/ exists t, In t (mbox.To m) /\ In t to.
Proof.
  intros to m. unfold mbox.withTo. destruct to as [|x to].
  - cbn. split; [left|]; reflexivity.
  - cbn [List.length Nat.eqb]. cbv zeta.
    rewrite (any_recipient_spec _ _ (Strings_sorted (x :: to))). split.
    + intros (t & Ht & Hin). right. exists t.
      split; [exact Ht|apply Strings_In; exact Hin].
    + intros [H|(t & Ht & Hin)]; [discriminate H|].
      exists t. split; [exact Ht|apply Strings_In; exact Hin].
Qed.

(** X21: [withTo] keeps a message exactly when the list of addresses is
    empty or one recipient of the message is in the list: the sort and the
    binary search amount to a membership test. *)
Theorem withTo_member (to : list string) (m : mbox.Message) :
  mbox.withTo to m = true <->
  to = [] \/ exists t, In t (mbox.To m) /\ In t to.
Proof.
  unfold mbox.withTo. destruct (Nat.eqb (List.length to) 0) eqn:E.
  - apply Nat.eqb_eq in E. destruct to; [|discriminate E].
    split; [left|]; reflexivity.
  - apply Nat.eqb_neq in E. cbv zeta.
    rewrite (any_recipient_spec _ _ (Strings_sorted to)). split.
    + intros (t & Ht & Hin). right. exists t.
      split; [exact Ht|apply Strings_In; exact Hin].
    + intros [->|(t & Ht & Hin)]; [contradiction E; reflexivity|].
      exists t. split; [exact Ht|apply Strings_In; exact Hin].
Qed.

Lemma HasPrefix_spec :
  forall s p : string, HasPrefix s p = true <-> exists b, s = p ++ b.
Proof.
  intros s p. revert s. induction p as [|c p IH]; intros s.
  - cbn. split; [intros _; exists s; reflexivity|reflexivity].
  - destruct s as [|x s]; cbn [HasPrefix].
    + split; [discriminate|]. intros (b & H). discriminate H.
    + rewrite andb_true_iff, Ascii.eqb_eq, IH. split.
      * intros (-> & b & ->). exists b. reflexivity.
      * intros (b & H). injection H as -> ->. split; [reflexivity|].
        exists b. reflexivity.
Qed.

Lemma Index_nonneg_step :
  forall (x : ascii) (s sub : string),
    0 <= Index (String x s) sub <->
    HasPrefix (String x s) sub = true \/ 0 <= Index s sub.
Proof.
  intros x s sub.
  change (Index (String x s) sub)
    with (if HasPrefix (String x s) sub then 0
          else let r := Index s sub in if r <? 0 then -1 else r + 1).
  destruct (HasPrefix (String x s) sub); [intuition lia|]. cbv zeta.
  destruct (Index s sub <? 0) eqn:E;
    [apply Z.ltb_lt in E|apply Z.ltb_ge in E]; intuition (discriminate || lia).
Qed.

(** [strings.Contains]: [substr] occurs in [s]. *)
Lemma Contains_spec :
  forall s substr : string,
    mbox.Contains s substr = true <-> exists a b, s = a ++ substr ++ b.
Proof.
  intros s substr. unfold mbox.Contains. rewrite Z.leb_le.
  induction s as [|x s IH].
  - change (Index "" substr) with (if HasPrefix "" substr then 0 else -1).
    destruct (HasPrefix "" substr) eqn:E.
    + apply HasPrefix_spec in E. destruct E as (b & E).
      split; [intros _; exists "", b; exact E|lia].
    + split; [lia|]. intros (a & b & H).
      destruct a; [|discriminate H]. cbn [append] in H.
      assert (HasPrefix "" substr = true)
        by (apply HasPrefix_spec; exists b; exact H).
      congruence.
  - rewrite Index_nonneg_step, IH, HasPrefix_spec. split.
    + intros [(b & H)|(a & b & H)].
      * exists "", b. exact H.
      * exists (String x a), b. rewrite H. reflexivity.
    + intros (a & b & H). destruct a as [|y a].
      * left. exists b. exact H.
      * right. injection H as -> ->. exists a, b. reflexivity.
Qed.

Lemma withInterval_spec :
  forall (starts ends : time.Time) (m : mbox.Message),
    mbox.withInterval starts ends m = true <->
    (time.IsZero starts = true /\ time.IsZero ends = true) \/
    time.unixSec starts <= time.unixSec (mbox.Date m) <= time.unixSec ends.
Proof.
  intros starts ends m. unfold mbox.withInterval.
  destruct (time.IsZero starts && time.IsZero ends)%bool eqn:E.
  - apply andb_true_iff in E. split; [intros _; left; exact E|reflexivity].
  - cbv zeta. unfold time.Before, time.After, time.UTC. cbn [time.unixSec].
    destruct (_ <? time.unixSec starts) eqn:E1;
      [apply Z.ltb_lt in E1|apply Z.ltb_ge in E1].
    + split; [discriminate|]. intros [[H1 H2]|H]; [|lia].
      rewrite H1, H2 in E. discriminate E.
    + rewrite negb_true_iff, Z.ltb_ge. split; [intros H; right; lia|].
      intros [[H1 H2]|H]; [|lia]. rewrite H1, H2 in E. discriminate E.
Qed.

(** X22: the filter of a predicate keeps a message exactly when all six
    conditions hold: the sender is the one asked for, if any; a recipient is
    among those asked for, if any; the subject holds the text asked for, if
    any; the message is no reply when replies are excluded; its date lies
    between the two dates, both included, unless both are the zero time; it
    has attachments when they are required.  The predicate with every field
    at its zero value keeps every message. *)
Theorem predicate_filter_spec (p : mbox.predicate) (m : mbox.Message) :
  (mbox.filter p m = true <->
   (mbox.p_From p = "" \/ mbox.From m = mbox.p_From p) /\
   (mbox.p_To p = [] \/ exists t, In t (mbox.To m) /\ In t (mbox.p_To p)) /\
   (mbox.p_Subject p = "" \/
    exists a b, mbox.Subject m = a ++ mbox.p_Subject p ++ b) /\
   (mbox.p_NoReply p = true -> mbox.IsReply m = false) /\
   ((time.IsZero (mbox.p_Starts p) = true /\
     time.IsZero (mbox.p_Ends p) = true) \/
    time.unixSec (mbox.p_Starts p) <= time.unixSec (mbox.Date m)
    <= time.unixSec (mbox.p_Ends p)) /\
   (mbox.p_Attachment p = true -> mbox.HasAttachments m = true)) /\
  (forall zero : time.Time,
     time.IsZero zero = true ->
     mbox.filter (mbox.mkPredicate "" [] "" false false zero zero) m = true).
Proof.
  split.
  - rewrite <- withTo_spec, <- withInterval_spec, <- Contains_spec.
    unfold mbox.filter. cbn [mbox.withFilter].
    unfold mbox.withFrom, mbox.withSubject, mbox.withReply, mbox.withAttachment.
    rewrite <- !String.eqb_eq.
    destruct (String.eqb (mbox.p_From p) ""),
      (String.eqb (mbox.From m) (mbox.p_From p)),
      (mbox.withTo (mbox.p_To p) m),
      (String.eqb (mbox.p_Subject p) ""),
      (mbox.Contains (mbox.Subject m) (mbox.p_Subject p)),
      (mbox.p_NoReply p), (mbox.IsReply m),
      (mbox.withInterval (mbox.p_Starts p) (mbox.p_Ends p) m),
      (mbox.p_Attachment p), (mbox.HasAttachments m);
      cbn; intuition discriminate.
  - intros zero Hz. unfold mbox.filter. cbn [mbox.withFilter mbox.p_From
      mbox.p_To mbox.p_Subject mbox.p_NoReply mbox.p_Attachment mbox.p_Starts
      mbox.p_Ends].
    unfold mbox.withInterval. rewrite Hz. reflexivity.
Qed.

(** X23: when only the start date of a predicate is set, the end date
    being the zero time, [withInterval] rejects every message dated after the
    zero time: the zero end date is compared as a date. *)
Theorem withInterval_start_only (starts ends : time.Time) (m : mbox.Message)
  (Hstart : time.IsZero starts = false)
  (Hend : time.IsZero ends = true)
  (Hdate : - time.unixToInternal < time.unixSec (mbox.Date m)) :
  mbox.withInterval starts ends m = false.
Proof.
  unfold mbox.withInterval. rewrite Hstart, Hend. cbn [andb]. cbv zeta.
  unfold time.IsZero in Hend. apply Z.eqb_eq in Hend.
  unfold time.Before, time.After, time.UTC. cbn [time.unixSec].
  destruct (_ <? time.unixSec starts); [reflexivity|].
  apply negb_false_iff, Z.ltb_lt. lia.
Qed.

Lemma withInterval_start_only_witness :
  time.IsZero (time.Date 2024 1 1 0 0 0) = false /\
  time.IsZero (time.Date 1 1 1 0 0 0) = true /\
  mbox.withInterval (time.Date 2024 1 1 0 0 0) (time.Date 1 1 1 0 0 0)
    (mbox.mkMessage "a@b" ["c@d"] "hello" false (time.Date 2024 3 5 7 8 9) false)
  = false.
Proof.
  split; [reflexivity|]. split; [reflexivity|].
  apply withInterval_start_only; [reflexivity|reflexivity|].
  vm_compute. reflexivity.
Defined.

(** X24: [processItem] adds no link and returns the skip error, whatever
    the items of the stack: the test of its loop compares the file of the
    item with itself, so every item is passed over.  Both times are the time
    of the item. *)
Theorem processItem_skips (items : list mbox.item) (i : mbox.item) :
  mbox.processItem items i =
  (mbox.mkFileInfo (mbox.i_When i) (mbox.i_When i) [], mbox.ErrSkip).
Proof.
  unfold mbox.processItem. do 2 f_equal.
  induction items as [|j items IH]; [reflexivity|].
  cbn [mbox.link_items]. rewrite String.eqb_refl. exact IH.
Qed.

(** * Cleaned paths *)

(** ** The directory segments of a clean path *)

Lemma upto_last_sep_app :
  forall a name : string,
    no_sep name = true ->
    filepath.upto_last_sep (a ++ String Separator name) =
    a ++ String Separator "".
Proof.
  induction a as [|c a IH]; intros name H.
  - cbn [append filepath.upto_last_sep]. rewrite Ascii.eqb_refl.
    rewrite (upto_last_sep_no_sep name H). reflexivity.
  - cbn [append filepath.upto_last_sep]. rewrite (IH name H).
    destruct (Ascii.eqb c Separator); [reflexivity|].
    destruct a; reflexivity.
Qed.

Lemma normal_all_ok :
  forall l : list string,
    forallb normal_elem l = true -> Forall (fun e => elem_ok e = true) l.
Proof.
  intros l H. apply canon_elem_ok, normal_canon, H.
Qed.

Lemma filter_nonempty_ok :
  forall l : list string,
    Forall (fun e => elem_ok e = true) l -> filter nonempty l = l.
Proof.
  induction l as [|e l IH]; intros H; [reflexivity|].
  inversion H as [|? ? He Hl]; subst. cbn [filter].
  unfold elem_ok in He. apply andb_true_iff in He. destruct He as [He _].
  rewrite He, (IH Hl). reflexivity.
Qed.

(** Cleaning a rooted path of normal elements, with or without a last
    separator, gives the path without it. *)
Lemma Clean_rooted_normal :
  forall (d : string) (dirs : list string) (tail : string),
    forallb normal_elem (d :: dirs) = true ->
    tail = "" \/ tail = "/" ->
    filepath.Clean (String Separator (String.concat "/" (d :: dirs) ++ tail)) =
    String Separator (String.concat "/" (d :: dirs)).
Proof.
  intros d dirs tail H Ht. unfold filepath.Clean, filepath.clean_elems.
  cbn [filepath.rooted]. rewrite Ascii.eqb_refl.
  pose proof (normal_all_ok _ H) as Hok.
  assert (Es : filter nonempty
                 (Split (String Separator (String.concat "/" (d :: dirs) ++ tail))
                        Separator) = d :: dirs).
  { change (String Separator (String.concat "/" (d :: dirs) ++ tail))
      with ("" ++ String Separator (String.concat "/" (d :: dirs) ++ tail)).
    rewrite Split_app. destruct Ht as [->| ->].
    - rewrite str_app_nil_r, Split_concat, (Split_concat_elems _ Hok).
      rewrite filter_app, (filter_nonempty_ok _ Hok). reflexivity.
    - rewrite Split_app, Split_concat, (Split_concat_elems _ Hok).
      rewrite !filter_app, (filter_nonempty_ok _ Hok). cbn [Split filter
        nonempty String.eqb negb app]. f_equal. apply app_nil_r. }
  rewrite clean_fold_filter, Es, (clean_fold_normal true _ [] H).
  rewrite app_nil_r, rev_involutive. reflexivity.
Qed.

Lemma segments_of_rooted_path :
  forall (d : string) (dirs : list string) (name : string),
    forallb normal_elem (d :: dirs) = true -> no_sep name = true ->
    segments (String Separator (String.concat "/" (d :: dirs))
              ++ String Separator name) = d :: dirs.
Proof.
  intros d dirs name H Hn. unfold segments, filepath.Dir.
  rewrite (upto_last_sep_app _ name Hn).
  change (String Separator (String.concat "/" (d :: dirs)) ++ String Separator "")
    with (String Separator (String.concat "/" (d :: dirs) ++ "/")).
  rewrite (Clean_rooted_normal d dirs "/" H) by (right; reflexivity).
  unfold TrimPrefix. cbn [HasPrefix]. rewrite Ascii.eqb_refl.
  cbn [andb String.length skipn_str].
  rewrite Split_concat. apply Split_concat_elems, normal_all_ok, H.
Qed.

(** X25: for a record whose File is an absolute path of directories that
    are neither empty nor [.] nor [..], followed by a file name, the index
    placeholder [n] resolves to the directory number [n], from 0, and to the
    empty string from the number of directories on. *)
Theorem index_of_absolute_path (d : string) (dirs : list string)
  (name : string) (dat : Data) (n : nat)
  (Hdirs : forallb normal_elem (d :: dirs) = true)
  (Hname : no_sep name = true)
  (Hfile : File dat =
           String Separator (String.concat "/" (d :: dirs))
           ++ String Separator name) :
  segments (File dat) = d :: dirs /\
  Resolve (index (Z.of_nat n)) dat = Ok (nth n (d :: dirs) "").
Proof.
  assert (Hs : segments (File dat) = d :: dirs)
    by (rewrite Hfile; apply segments_of_rooted_path; assumption).
  split; [exact Hs|].
  destruct (Nat.lt_ge_cases n (List.length (d :: dirs))) as [Hlt|Hge].
  - rewrite index_Resolve_in_range by (rewrite Hs; lia).
    rewrite Hs, Nat2Z.id. reflexivity.
  - rewrite index_Resolve_above by (rewrite Hs; lia).
    rewrite nth_overflow by exact Hge. reflexivity.
Qed.

Lemma index_of_absolute_path_witness :
  forallb normal_elem ["a"; "b"; "c"] = true /\
  File sample = "/a/b/c/d.dat" /\
  Resolve (index 1) sample = Ok "b".
Proof.
  split; [reflexivity|]. split; [reflexivity|].
  exact (proj2 (index_of_absolute_path "a" ["b"; "c"] "d.dat" sample 1
                  eq_refl eq_refl eq_refl)).
Defined.

(** ** The output of a path node is clean *)

Lemma Clean_canon_id :
  forall (e : string) (l : list string),
    canon (e :: l) = true ->
    filepath.Clean (String.concat "/" (e :: l)) = String.concat "/" (e :: l).
Proof.
  intros e l H. pose proof (Join_canon (e :: l) H) as HJ.
  cbn [filepath.Join] in HJ.
  pose proof (canon_elem_ok _ H) as Hok. inversion Hok as [|? ? He _]; subst.
  destruct e as [|c e]; [discriminate He|]. exact HJ.
Qed.

(** Cleaning a cleaned path changes nothing. *)
Lemma Clean_idem :
  forall p : string, filepath.Clean (filepath.Clean p) = filepath.Clean p.
Proof.
  intros p. unfold filepath.Clean at 2 3.
  pose proof (clean_elems_canon (filepath.rooted p) p) as Hc.
  destruct (filepath.rooted p); cbn [canon_for] in Hc;
    destruct (filepath.clean_elems _ (Split p Separator)) as [|e l].
  - reflexivity.
  - unfold JoinStrings.
    rewrite <- (str_app_nil_r (String.concat "/" (e :: l))) at 1.
    apply (Clean_rooted_normal e l "" Hc). left. reflexivity.
  - reflexivity.
  - apply (Clean_canon_id e l Hc).
Qed.

(** X26: what a path node resolves to is a clean path: it is empty, or
    [filepath.Clean] leaves it as it is. *)
Theorem path_Resolve_clean (rs : list Resolver) (dat : Data) (s : string)
  (H : Resolve (path rs) dat = Ok s) :
  s = "" \/ filepath.Clean s = s.
Proof.
  cbn [Resolve] in H.
  destruct (each (fun r => Resolve r dat) rs) as [outs| |]; try discriminate H.
  cbn [bind] in H. injection H as <-. rewrite Join_nonempty.
  destruct (filter nonempty outs); [left; reflexivity|right; apply Clean_idem].
Qed.

Lemma path_Resolve_clean_witness :
  Resolve (path [literal "x//y"; literal ".."; fragment "run"]) sample =
  Ok "x/main unit" /\
  ("x/main unit" = "" \/ filepath.Clean "x/main unit" = "x/main unit").
Proof.
  assert (H : Resolve (path [literal "x//y"; literal ".."; fragment "run"])
                sample = Ok "x/main unit") by reflexivity.
  split; [exact H|]. exact (path_Resolve_clean _ sample _ H).
Defined.
